(** * A contact book with an upcoming-birthday query: task1.py

    Shallow embedding of [src/task1.py] and proofs about it.

    Conventions of the embedding.
    - A Python [str] is a [string]: a sequence of code points below 256.
      On that range the class [\d] of the [re] module is exactly the ten
      ASCII digits.
    - A Python [int] is a [Z].
    - A raised exception is a value of [exn] (its class and its message);
      a computation that may raise returns [exn + A].
    - [print] appends a line to an explicit output log.
    - Objects that are mutated while shared (the [Record]s held by an
      [AddressBook]) live in a store addressed by references. *)

From Stdlib Require Import ZArith Lia List Bool Ascii String.
Import ListNotations.

Local Open Scope string_scope.
Local Open Scope Z_scope.

Set Implicit Arguments.

(** ** Exceptions *)

Module Exn.

(** The exception classes the program meets, and the part of the class
    hierarchy of Python that the [except] clauses of the program see. *)
Inductive class := BaseException | Exception | LookupError | KeyError
                 | IndexError | ValueError | OverflowError | ArithmeticError.

Definition class_eqb (a b : class) : bool :=
  match a, b with
  | BaseException, BaseException | Exception, Exception
  | LookupError, LookupError | KeyError, KeyError
  | IndexError, IndexError | ValueError, ValueError
  | OverflowError, OverflowError | ArithmeticError, ArithmeticError => true
  | _, _ => false
  end.

(** The direct base class. *)
Definition base (c : class) : option class :=
  match c with
  | BaseException => None
  | Exception => Some BaseException
  | LookupError | ValueError | ArithmeticError => Some Exception
  | KeyError | IndexError => Some LookupError
  | OverflowError => Some ArithmeticError
  end.

(** [issubclass c d], by walking up the bases; the hierarchy is at most
    four deep. *)
Fixpoint issubclass_fuel (fuel : nat) (c d : class) : bool :=
  class_eqb c d ||
  match fuel with
  | O => false
  | S fuel' => match base c with
               | Some b => issubclass_fuel fuel' b d
               | None => false
               end
  end.

Definition issubclass : class -> class -> bool := issubclass_fuel 4.

Record t := raise_ { cls : class; msg : string }.

End Exn.

Abbreviation exn := Exn.t.
Abbreviation Raise c m := (inl (Exn.raise_ c m)).

(** ** Characters and text *)

Definition newline : ascii := ascii_of_nat 10.

(** The text of a line break. *)
Definition nl : string := String newline EmptyString.

Definition in_range (lo hi c : ascii) : bool :=
  (N_of_ascii lo <=? N_of_ascii c)%N && (N_of_ascii c <=? N_of_ascii hi)%N.

(** [\d] on the characters of this development, the code points below
    256: the decimal digits among them are 0 to 9.  In a [str] pattern
    [\d] also matches the decimal digits of other scripts, characters
    from 256 on that a text given here cannot hold: what is stated of
    every text is stated of the texts of characters below 256. *)
Definition is_digit (c : ascii) : bool := in_range "0" "9" c.

Definition is_char (a c : ascii) : bool := Ascii.eqb a c.

Arguments in_range _ _ !c : simpl nomatch.
Arguments is_digit !c : simpl nomatch.
Arguments is_char _ !c : simpl nomatch.

(** [str.isspace] on code points below 256 that [int] and [str.strip]
    drop: tab, line feed, vertical tab, form feed, carriage return, the
    four separators 28..31, space, NEL and the no-break space. *)
Definition is_space (c : ascii) : bool :=
  let n := N_of_ascii c in
  ((9 <=? n) && (n <=? 13) || (28 <=? n) && (n <=? 32)
   || (n =? 133) || (n =? 160))%N.

Definition digit_val (c : ascii) : Z := Z.of_N (N_of_ascii c) - 48.

Definition digit_char (v : Z) : ascii := ascii_of_N (Z.to_N (v + 48)).

(** The integers [lo], [lo + 1], ..., [n] of them. *)
Fixpoint zrange (lo : Z) (n : nat) : list Z :=
  match n with
  | O => []
  | S n' => lo :: zrange (lo + 1) n'
  end.

(** [sep.join(parts)]. *)
Fixpoint join (sep : string) (parts : list string) : string :=
  match parts with
  | [] => ""
  | [p] => p
  | p :: rest => p ++ sep ++ join sep rest
  end.

(** ** The fragment of [re] that the program and [strptime] use

    Patterns without iteration other than the bounded [r{n}].  The
    matcher is the backtracking one of [re]: alternatives are tried from
    left to right and the first way to match the whole pattern wins.  It
    is written in continuation-passing style; the continuation receives
    the position reached, the text left and the groups captured so far. *)

Module Re.

Inductive regex :=
| Bol                           (* ^ *)
| Eol                           (* $ *)
| Cls (p : ascii -> bool)       (* a literal or a class *)
| Cat (r1 r2 : regex)
| Alt (r1 r2 : regex)
| Rep (n : nat) (r : regex)     (* r{n} *)
| Grp (name : string) (r : regex) (* (?P<name>r) *).

Definition groups := list (string * string).

Section Run.
Variable A : Type.

Definition cont := nat -> string -> groups -> option A.

Fixpoint run (r : regex) (pos : nat) (s : string) (g : groups) (k : cont)
  : option A :=
  match r with
  | Bol => if Nat.eqb pos 0 then k pos s g else None
  | Eol =>
      (* without MULTILINE: at the end, or just before a final newline *)
      match s with
      | EmptyString => k pos s g
      | String c EmptyString => if is_char newline c then k pos s g else None
      | _ => None
      end
  | Cls p =>
      match s with
      | String c s' => if p c then k (S pos) s' g else None
      | EmptyString => None
      end
  | Cat r1 r2 => run r1 pos s g (fun pos' s' g' => run r2 pos' s' g' k)
  | Alt r1 r2 =>
      match run r1 pos s g k with
      | Some a => Some a
      | None => run r2 pos s g k
      end
  | Rep n r1 =>
      (fix rep (n : nat) (pos : nat) (s : string) (g : groups) : option A :=
         match n with
         | O => k pos s g
         | S n' => run r1 pos s g (fun pos' s' g' => rep n' pos' s' g')
         end) n pos s g
  | Grp name r1 =>
      run r1 pos s g
          (fun pos' s' g' =>
             k pos' s' ((name, substring 0 (pos' - pos) s) :: g'))
  end.

End Run.

(** What a successful [re.match] exposes: where the match ends, and the
    groups. *)
Record match_object := { m_end : nat; m_groups : groups }.

(** [re.match(pattern, s)]: the match is anchored at position 0. *)
Definition re_match (r : regex) (s : string) : option match_object :=
  run r 0 s [] (fun pos _ g => Some {| m_end := pos; m_groups := g |}).

Fixpoint group (name : string) (g : groups) : string :=
  match g with
  | [] => ""
  | (n, v) :: g' => if String.eqb n name then v else group name g'
  end.

End Re.

Import Re.

(** ** Fields *)

(** [class Field]: a value and its [__str__]. *)

(** [class Phone(Field)], lines 53-57.  The pattern is [^\d{10}$]. *)
Definition phone_pattern : regex :=
  Cat Bol (Cat (Rep 10 (Cls is_digit)) Eol).

Record Phone_t := mkPhone { phone_value : string }.

Definition phone_error : exn :=
  Exn.raise_ Exn.Exception "Phone number must be exactly 10 digits.".

Definition Phone (value : string) : exn + Phone_t :=
  match re_match phone_pattern value with
  | None => inl phone_error
  | Some _ => inr (mkPhone value)
  end.

(** [Field.__str__] on a phone: [str(self.value)]. *)
Definition Phone_str (p : Phone_t) : string := phone_value p.

(** The texts the specification lets [Phone] accept, in its words:
    exactly 10 ASCII digits, no leading or trailing characters, no
    separators. *)
Definition ten_ascii_digits (s : string) : bool :=
  Nat.eqb (String.length s) 10 && forallb is_digit (list_ascii_of_string s).

(** [s] without its last character, when that is a newline. *)
Fixpoint chomp (s : string) : option string :=
  match s with
  | EmptyString => None
  | String c EmptyString =>
      if is_char newline c then Some EmptyString else None
  | String c s' => option_map (String c) (chomp s')
  end.

(** ** Dates: the part of [datetime] that the program uses

    Transcribed from the reference implementation [Lib/_pydatetime.py];
    the messages of the exceptions are those of the C implementation,
    without the value they quote. *)

Module Date.

Definition MINYEAR : Z := 1.
Definition MAXYEAR : Z := 9999.

Record t := mk { year : Z; month : Z; day : Z }.

Definition _is_leap (year : Z) : bool :=
  (year mod 4 =? 0) && (negb (year mod 100 =? 0) || (year mod 400 =? 0)).

Definition _days_before_year (year : Z) : Z :=
  let y := year - 1 in
  y * 365 + y / 4 - y / 100 + y / 400.

(** [_DAYS_IN_MONTH[month]] *)
Definition _DAYS_IN_MONTH (month : Z) : Z :=
  match month with
  | 1 => 31 | 2 => 28 | 3 => 31 | 4 => 30 | 5 => 31 | 6 => 30
  | 7 => 31 | 8 => 31 | 9 => 30 | 10 => 31 | 11 => 30 | 12 => 31
  | _ => -1
  end.

Definition _days_in_month (year month : Z) : Z :=
  if (month =? 2) && _is_leap year then 29 else _DAYS_IN_MONTH month.

(** [_DAYS_BEFORE_MONTH[month]] *)
Definition _DAYS_BEFORE_MONTH (month : Z) : Z :=
  match month with
  | 1 => 0 | 2 => 31 | 3 => 59 | 4 => 90 | 5 => 120 | 6 => 151
  | 7 => 181 | 8 => 212 | 9 => 243 | 10 => 273 | 11 => 304 | 12 => 334
  | _ => -1
  end.

Definition _days_before_month (year month : Z) : Z :=
  _DAYS_BEFORE_MONTH month + (if (2 <? month) && _is_leap year then 1 else 0).

Definition _ymd2ord (year month day : Z) : Z :=
  _days_before_year year + _days_before_month year month + day.

Definition _DI400Y : Z := _days_before_year 401.
Definition _DI100Y : Z := _days_before_year 101.
Definition _DI4Y : Z := _days_before_year 5.

Definition _MAXORDINAL : Z := 3652059.

Definition _ord2ymd (n : Z) : Z * Z * Z :=
  let n := n - 1 in
  let n400 := n / _DI400Y in
  let n := n mod _DI400Y in
  let year := n400 * 400 + 1 in
  let n100 := n / _DI100Y in
  let n := n mod _DI100Y in
  let n4 := n / _DI4Y in
  let n := n mod _DI4Y in
  let n1 := n / 365 in
  let n := n mod 365 in
  let year := year + n100 * 100 + n4 * 4 + n1 in
  if (n1 =? 4) || (n100 =? 4) then (year - 1, 12, 31)
  else
    let leapyear := (n1 =? 3) && (negb (n4 =? 24) || (n100 =? 3)) in
    let month := Z.shiftr (n + 50) 5 in
    let preceding :=
      _DAYS_BEFORE_MONTH month + (if (2 <? month) && leapyear then 1 else 0) in
    let '(month, preceding) :=
      if n <? preceding
      then (month - 1,
            preceding - (_DAYS_IN_MONTH (month - 1)
                         + (if (month - 1 =? 2) && leapyear then 1 else 0)))
      else (month, preceding) in
    (year, month, n - preceding + 1).

(** [date(year, month, day)]: the constructor checks its fields. *)
Definition new (year month day : Z) : exn + t :=
  if negb ((MINYEAR <=? year) && (year <=? MAXYEAR))
  then Raise Exn.ValueError "year is out of range"
  else if negb ((1 <=? month) && (month <=? 12))
  then Raise Exn.ValueError "month must be in 1..12"
  else if negb ((1 <=? day) && (day <=? _days_in_month year month))
  then Raise Exn.ValueError "day is out of range for month"
  else inr (mk year month day).

Definition toordinal (d : t) : Z := _ymd2ord (year d) (month d) (day d).

Definition fromordinal (n : Z) : t :=
  let '(y, m, d) := _ord2ymd n in mk y m d.

(** Monday is 0, Sunday is 6. *)
Definition weekday (d : t) : Z := (toordinal d + 6) mod 7.

(** [d.replace(year=y)] builds a new date and so checks it. *)
Definition replace_year (d : t) (y : Z) : exn + t := new y (month d) (day d).

(** [(a - b).days] *)
Definition sub_days (a b : t) : Z := toordinal a - toordinal b.

(** [d + timedelta(days=n)] *)
Definition add_days (d : t) (n : Z) : exn + t :=
  let o := toordinal d + n in
  if (0 <? o) && (o <=? _MAXORDINAL) then inr (fromordinal o)
  else Raise Exn.OverflowError "date value out of range".

(** Zero-padded decimal text of [n], [width] digits wide. *)
Fixpoint zfill (width : nat) (n : Z) : string :=
  match width with
  | O => ""
  | S w => zfill w (n / 10) ++ String (digit_char (n mod 10)) ""
  end.

(** [d.strftime('%d.%m.%Y')], with the year on four digits as the
    library documents [%Y] (0001, ..., 9999).  The C library of some
    platforms writes a year below 1000 without its zeros ("999"), a text
    that [strptime] does not read; from 1000 on every platform writes
    the text given here.  A statement that depends on the text of a
    year says that the year has four digits. *)
Definition strftime (d : t) : string :=
  zfill 2 (day d) ++ "." ++ zfill 2 (month d) ++ "." ++ zfill 4 (year d).

(** [str(d)], which is [d.isoformat()]. *)
Definition isoformat (d : t) : string :=
  zfill 4 (year d) ++ "-" ++ zfill 2 (month d) ++ "-" ++ zfill 2 (day d).

(** *** [datetime.strptime(text, '%d.%m.%Y').date()]

    [_strptime] turns the format into a pattern, one named group per
    directive and the other characters escaped:
      %d is (?P<d>3[0-1]|[1-2]\d|0[1-9]|[1-9]| [1-9]),
      %m is (?P<m>1[0-2]|0[1-9]|[1-9]),
      %Y is (?P<Y>\d\d\d\d). *)

Definition re_d : regex :=
  Alt (Cat (Cls (is_char "3")) (Cls (in_range "0" "1")))
 (Alt (Cat (Cls (in_range "1" "2")) (Cls is_digit))
 (Alt (Cat (Cls (is_char "0")) (Cls (in_range "1" "9")))
 (Alt (Cls (in_range "1" "9"))
      (Cat (Cls (is_char " ")) (Cls (in_range "1" "9")))))).

Definition re_m : regex :=
  Alt (Cat (Cls (is_char "1")) (Cls (in_range "0" "2")))
 (Alt (Cat (Cls (is_char "0")) (Cls (in_range "1" "9")))
      (Cls (in_range "1" "9"))).

Definition re_Y : regex :=
  Cat (Cls is_digit) (Cat (Cls is_digit) (Cat (Cls is_digit) (Cls is_digit))).

Definition format_regex : regex :=
  Cat (Grp "d" re_d)
 (Cat (Cls (is_char "."))
 (Cat (Grp "m" re_m)
 (Cat (Cls (is_char "."))
      (Grp "Y" re_Y)))).

Fixpoint lstrip (s : string) : string :=
  match s with
  | String c s' => if is_space c then lstrip s' else s
  | EmptyString => s
  end.

Fixpoint digits_value (acc : Z) (s : string) : option Z :=
  match s with
  | EmptyString => Some acc
  | String c s' =>
      if is_digit c then digits_value (10 * acc + digit_val c) s' else None
  end.

(** [int(text)] for the texts a group of [format_regex] can hold:
    decimal digits after optional white space.  Signs, underscores and
    white space after the digits are not modelled. *)
Definition int (text : string) : exn + Z :=
  match lstrip text with
  | EmptyString => Raise Exn.ValueError "invalid literal for int() with base 10"
  | String c s' =>
      match digits_value 0 (String c s') with
      | Some v => inr v
      | None => Raise Exn.ValueError "invalid literal for int() with base 10"
      end
  end.

(** The messages of the two [ValueError]s of [_strptime] quote the data
    and the format; the program never reads them, and they are cut short
    here. *)
Definition strptime (data_string : string) : exn + t :=
  match re_match format_regex data_string with
  | None => Raise Exn.ValueError "time data does not match format"
  | Some found =>
      if negb (Nat.eqb (String.length data_string) (m_end found))
      then Raise Exn.ValueError "unconverted data remains"
      else
        match int (group "Y" (m_groups found)) with
        | inl e => inl e
        | inr year =>
            match int (group "m" (m_groups found)) with
            | inl e => inl e
            | inr month =>
                match int (group "d" (m_groups found)) with
                | inl e => inl e
                | inr day => new year month day
                end
            end
        end
  end.

(** A year, a month and a day that [date] accepts. *)
Definition valid (d : t) : bool :=
  (MINYEAR <=? year d) && (year d <=? MAXYEAR)
  && (1 <=? month d) && (month d <=? 12)
  && (1 <=? day d) && (day d <=? _days_in_month (year d) (month d)).

(** The ways of writing a day and a month that [strptime] reads. *)
Definition day_texts (d : Z) : list string :=
  if d <? 10 then [zfill 2 d; zfill 1 d; String " " (zfill 1 d)]
  else [zfill 2 d].

Definition month_texts (m : Z) : list string :=
  if m <? 10 then [zfill 2 m; zfill 1 m] else [zfill 2 m].

Definition dotted (ds ms ys : string) : string :=
  (ds ++ String "." (ms ++ String "." ys))%string.

Definition accepted_texts (d : t) : list string :=
  flat_map (fun ds => map (fun ms => dotted ds ms (zfill 4 (year d)))
                          (month_texts (month d)))
           (day_texts (day d)).

(** The strict reading of DD.MM.YYYY, in the words of the
    specification: two digits, a dot, two digits, a dot, four digits,
    that denote a real calendar date. *)
Definition strict_date_text (s : string) : option t :=
  match s with
  | String d1 (String d2 (String p1 (String m1 (String m2 (String p2
      (String y1 (String y2 (String y3 (String y4 EmptyString))))))))) =>
      if forallb is_digit [d1; d2; m1; m2; y1; y2; y3; y4]
         && is_char "." p1 && is_char "." p2
      then
        let date :=
          mk (1000 * digit_val y1 + 100 * digit_val y2
              + 10 * digit_val y3 + digit_val y4)
             (10 * digit_val m1 + digit_val m2)
             (10 * digit_val d1 + digit_val d2) in
        if valid date then Some date else None
      else None
  | _ => None
  end.

End Date.

Definition DATE_FORMAT : string := "%d.%m.%Y".
Definition WEEKDAYS_LENGTH : Z := 5.
Definition WEEK_LENGTH : Z := 7.

(** [class Birthday(Field)], lines 40-50.  [self.birthday] and
    [self.value] hold the same date. *)
Record Birthday_t := mkBirthday { birthday_date : Date.t }.

Definition birthday_error : exn :=
  Exn.raise_ Exn.Exception "Invalid date format. Use DD.MM.YYYY".

Definition Birthday (value : string) : exn + Birthday_t :=
  match Date.strptime value with
  | inr birthday => inr (mkBirthday birthday)
  | inl e =>
      if Exn.issubclass (Exn.cls e) Exn.ValueError
      then inl birthday_error
      else inl e
  end.

(** [Birthday.__str__] *)
Definition Birthday_str (b : Birthday_t) : string :=
  Date.strftime (birthday_date b).

(** ** Computations

    A method or a function of the program is a computation over a state
    [S]: from a state it gives a result or a raised exception, the state
    reached (kept when an exception is raised: what was mutated stays
    mutated) and the lines printed. *)

Definition M (S A : Type) : Type := S -> (exn + A) * S * list string.

Definition ret {S A} (a : A) : M S A := fun s => (inr a, s, []).

Definition bind {S A B} (m : M S A) (f : A -> M S B) : M S B :=
  fun s =>
    let '(r, s1, o1) := m s in
    match r with
    | inl e => (inl e, s1, o1)
    | inr a => let '(r2, s2, o2) := f a s1 in (r2, s2, (o1 ++ o2)%list)
    end.

Notation "x <- m ;; k" := (bind m (fun x => k))
  (at level 61, m at next level, right associativity).
Notation "m ;;; k" := (bind m (fun _ => k))
  (at level 61, right associativity).

Definition lift {S A} (r : exn + A) : M S A := fun s => (r, s, []).
Definition get {S} : M S S := fun s => (inr s, s, []).
Definition put {S} (s : S) : M S unit := fun _ => (inr tt, s, []).
Definition print {S} (line : string) : M S unit := fun s => (inr tt, s, [line]).

(** [try: m  except c1: h1  except c2: h2 ...]: the first clause whose
    class the exception is an instance of handles it. *)
Fixpoint find_handler {B} (e : exn) (handlers : list (Exn.class * B))
  : option B :=
  match handlers with
  | [] => None
  | (c, h) :: rest =>
      if Exn.issubclass (Exn.cls e) c then Some h else find_handler e rest
  end.

Definition try_except {S A} (m : M S A)
           (handlers : list (Exn.class * (exn -> M S A))) : M S A :=
  fun s =>
    let '(r, s1, o1) := m s in
    match r with
    | inr a => (inr a, s1, o1)
    | inl e =>
        match find_handler e handlers with
        | None => (inl e, s1, o1)
        | Some h => let '(r2, s2, o2) := h e s1 in (r2, s2, (o1 ++ o2)%list)
        end
    end.

(** The three components of an outcome. *)
Definition result {S A} (x : (exn + A) * S * list string) : exn + A :=
  fst (fst x).
Definition state {S A} (x : (exn + A) * S * list string) : S := snd (fst x).
Definition output {S A} (x : (exn + A) * S * list string) : list string :=
  snd x.

(** ** [class Record], lines 60-104 *)

Module Record.

(** [name] is the value of the [Name] field. *)
Record t := mk {
  name : string;
  phones : list Phone_t;
  birthday : option Birthday_t
}.

(** [Record(name)] *)
Definition new (name : string) : t := mk name [] None.

Definition add_phone (phone_number : string) : M t unit :=
  phone <- lift (Phone phone_number) ;;
  self <- get ;;
  put (mk (name self) (phones self ++ [phone])%list (birthday self)).

(** The [for] loop of [remove_phone] and of [find_phone]: the first
    phone whose value is [phone_number]. *)
Definition first_with_value (phone_number : string) (l : list Phone_t)
  : option Phone_t :=
  List.find (fun phone => String.eqb (phone_value phone) phone_number) l.

(** [list.remove(x)] where [x] is the first element whose value is
    [phone_number]: the element removed is the first one identical to
    [x], and no element before [x] has its value. *)
Fixpoint list_remove (phone_number : string) (l : list Phone_t)
  : list Phone_t :=
  match l with
  | [] => []
  | phone :: rest =>
      if String.eqb (phone_value phone) phone_number then rest
      else phone :: list_remove phone_number rest
  end.

Definition remove_phone (phone_number : string) : M t unit :=
  self <- get ;;
  match first_with_value phone_number (phones self) with
  | Some phone_to_remove =>
      put (mk (name self)
              (list_remove (phone_value phone_to_remove) (phones self))
              (birthday self))
  | None => print "Phone number not found."
  end.

Definition edit_phone (old_phone_number new_phone_number : string)
  : M t unit :=
  remove_phone old_phone_number ;;;
  add_phone new_phone_number.

Definition find_phone (phone_number : string) : M t string :=
  self <- get ;;
  match first_with_value phone_number (phones self) with
  | Some phone => ret (phone_value phone)
  | None => ret "Phone number not found."
  end.

Definition add_birthday (birthday : string) : M t unit :=
  b <- lift (Birthday birthday) ;;
  self <- get ;;
  put (mk (name self) (phones self) (Some b)).

(** [Record.__str__] *)
Definition str (self : t) : string :=
  ("Contact name: " ++ name self
   ++ ", Phones: " ++ join "; " (map phone_value (phones self))
   ++ ", Birthday: "
   ++ match birthday self with
      | None => "None"
      | Some b => Birthday_str b
      end)%string.

End Record.

(** ** The store and the address book

    [Record] objects are shared between the book and its callers, so
    they live in a store; a reference is an index into it.  [next] is the
    first index not yet allocated.  The book is its [data], a [dict]:
    keys in insertion order, each key once. *)

Definition ref := nat.

Record World := mkWorld {
  heap : ref -> Record.t;
  next : ref;
  data : list (string * ref)
}.

Definition empty_world : World :=
  mkWorld (fun _ => Record.new "") 0%nat [].

Definition heap_set (r : ref) (v : Record.t) (h : ref -> Record.t)
  : ref -> Record.t :=
  fun i => if Nat.eqb i r then v else h i.

(** [Record(name)] evaluated by code that holds the result. *)
Definition alloc (name : string) : M World ref :=
  w <- get ;;
  put (mkWorld (heap_set (next w) (Record.new name) (heap w))
               (S (next w)) (data w)) ;;;
  ret (next w).

(** A method call [record.m(...)]. *)
Definition on_record {A} (r : ref) (m : M Record.t A) : M World A :=
  fun w =>
    let '(res, self', o) := m (heap w r) in
    (res, mkWorld (heap_set r self' (heap w)) (next w) (data w), o).

Module Dict.

Fixpoint get (key : string) (d : list (string * ref)) : option ref :=
  match d with
  | [] => None
  | (k, v) :: rest => if String.eqb k key then Some v else get key rest
  end.

(** [d[key] = v]: a key already present keeps its place. *)
Fixpoint set (key : string) (v : ref) (d : list (string * ref))
  : list (string * ref) :=
  match d with
  | [] => [(key, v)]
  | (k, v') :: rest =>
      if String.eqb k key then (k, v) :: rest else (k, v') :: set key v rest
  end.

(** [del d[key]], for a key that is present. *)
Fixpoint del (key : string) (d : list (string * ref)) : list (string * ref) :=
  match d with
  | [] => []
  | (k, v) :: rest =>
      if String.eqb k key then rest else (k, v) :: del key rest
  end.

End Dict.

Inductive congratulation :=
| CongText (s : string)      (* the [strftime] text of the week-day branch *)
| CongDate (d : Date.t)      (* the date object of the week-end branch *).

(** What [f"{congratulation_date}"] gives. *)
Definition congratulation_str (c : congratulation) : string :=
  match c with
  | CongText s => s
  | CongDate d => Date.isoformat d
  end.

Module AddressBook.

Definition add_record (new_record : ref) : M World unit :=
  w <- get ;;
  put (mkWorld (heap w) (next w)
               (Dict.set (Record.name (heap w new_record)) new_record (data w))).

Definition find (record_name : string) : M World (option ref) :=
  w <- get ;;
  ret (Dict.get record_name (data w)).

Definition delete (record_name : string) : M World unit :=
  w <- get ;;
  match Dict.get record_name (data w) with
  | Some _ => put (mkWorld (heap w) (next w) (Dict.del record_name (data w)))
  | None => print "Contact not found."
  end.

(** The records of the book, in the order the [for] loop meets them. *)
Definition users (w : World) : list Record.t :=
  map (fun kv => heap w (snd kv)) (data w).

(** One turn of the loop of [get_upcoming_birthdays], lines 127-145:
    [None] is [continue]; otherwise the record and its congratulation
    date, from which line 145 formats the string it appends. *)
Definition upcoming (current_date : Date.t) (user : Record.t)
  : exn + option (Record.t * congratulation) :=
  match Record.birthday user with
  | None => inr None
  | Some b =>
      match Date.strptime (Birthday_str b) with
      | inl e => inl e
      | inr user_birthday_date =>
          match Date.replace_year user_birthday_date (Date.year current_date)
          with
          | inl e => inl e
          | inr user_birthday_date_this_year =>
              let delta_days :=
                Date.sub_days user_birthday_date_this_year current_date in
              if negb ((0 <=? delta_days) && (delta_days <? 7)) then inr None
              else
                let weekday := Date.weekday user_birthday_date_this_year in
                if weekday <? WEEKDAYS_LENGTH
                then inr (Some (user,
                            CongText (Date.strftime
                                        user_birthday_date_this_year)))
                else
                  match Date.add_days user_birthday_date_this_year
                                      (WEEK_LENGTH - weekday) with
                  | inl e => inl e
                  | inr d => inr (Some (user, CongDate d))
                  end
          end
      end
  end.

(** The loop: [users_for_congratulation] grows at its end; an exception
    leaves the loop. *)
Fixpoint users_for_congratulation (current_date : Date.t)
         (users : list Record.t) (acc : list (Record.t * congratulation))
  : exn + list (Record.t * congratulation) :=
  match users with
  | [] => inr acc
  | user :: rest =>
      match upcoming current_date user with
      | inl e => inl e
      | inr None => users_for_congratulation current_date rest acc
      | inr (Some entry) =>
          users_for_congratulation current_date rest (acc ++ [entry])%list
      end
  end.

(** Line 145. *)
Definition line (entry : Record.t * congratulation) : string :=
  (Record.str (fst entry) ++ ", Congratulation date: "
   ++ congratulation_str (snd entry))%string.

(** [current_date] is what [datetime.today().date()] returns.  The
    [except] clause prints the exception and falls off the end of the
    function, which returns [None]. *)
Definition get_upcoming_birthdays (current_date : Date.t)
  : M World (option string) :=
  try_except
    (w <- get ;;
     l <- lift (users_for_congratulation current_date (users w) []) ;;
     match l with
     | [] => ret None
     | _ => ret (Some (join nl (map line l)))
     end)
    [(Exn.Exception, fun e => print (Exn.msg e) ;;; ret None)].

End AddressBook.

(** ** The window of the query, in the words of the specification *)

(** [delta_days]: the days from the current date to the birthday
    re-anchored onto the current year, when that date exists. *)
Definition delta_days (current_date : Date.t) (b : Birthday_t) : option Z :=
  match Date.replace_year (birthday_date b) (Date.year current_date) with
  | inr anchored_date => Some (Date.sub_days anchored_date current_date)
  | inl _ => None
  end.

(** A contact qualifies when its birthday is set and [delta_days] is in
    the range [0, 7). *)
Definition qualifies (current_date : Date.t) (user : Record.t) : bool :=
  match Record.birthday user with
  | Some b =>
      match delta_days current_date b with
      | Some delta => (0 <=? delta) && (delta <? 7)
      | None => false
      end
  | None => false
  end.

(** The birthday of a record, when it is set, holds a date that [date]
    accepts: it was built by [Birthday]. *)
Definition birthday_ok (user : Record.t) : Prop :=
  match Record.birthday user with
  | Some b => Date.valid (birthday_date b) = true
  | None => True
  end.

Definition birthdays_valid (w : World) : Prop :=
  forall user, In user (AddressBook.users w) -> birthday_ok user.

(** ** The command handlers, lines 11-24 and 155-237 *)

(** What a handler returns and [main] prints. *)
Inductive value :=
| VNone
| VStr (s : string)
| VExn (e : exn)
| VBirthday (b : Birthday_t).

(** [str(v)], as [print] applies it. *)
Definition value_str (v : value) : string :=
  match v with
  | VNone => "None"
  | VStr s => s
  | VExn e => Exn.msg e
  | VBirthday b => Birthday_str b
  end.

(** The decorator.  Its clauses are tried in the order they are
    written. *)
Definition input_error (func : M World value) : M World value :=
  try_except func
    [ (Exn.KeyError, fun _ => ret (VStr "Enter a valid command."));
      (Exn.ValueError,
        fun _ => ret (VStr "Enter the argument for the command."));
      (Exn.Exception, fun e => ret (VExn e));
      (Exn.IndexError,
        fun _ => ret (VStr "Give me both name and phone number.")) ].

(** [a, b = args] *)
Definition unpack2 (args : list string) : exn + (string * string) :=
  match args with
  | [a; b] => inr (a, b)
  | [] | [_] => Raise Exn.ValueError "not enough values to unpack (expected 2)"
  | _ => Raise Exn.ValueError "too many values to unpack (expected 2)"
  end.

(** [a, b, c = args] *)
Definition unpack3 (args : list string)
  : exn + (string * string * string) :=
  match args with
  | [a; b; c] => inr (a, b, c)
  | [] | [_] | [_; _] =>
      Raise Exn.ValueError "not enough values to unpack (expected 3)"
  | _ => Raise Exn.ValueError "too many values to unpack (expected 3)"
  end.

(** [args[0]] *)
Definition index0 (args : list string) : exn + string :=
  match args with
  | a :: _ => inr a
  | [] => Raise Exn.IndexError "list index out of range"
  end.

(** Truth value of a [str]. *)
Definition truthy (s : string) : bool :=
  match s with EmptyString => false | _ => true end.

Definition add_contact (args : list string) : M World value :=
  input_error
    (np <- lift (unpack2 args) ;;
     let '(name, phone) := np in
     found <- AddressBook.find name ;;
     let message := ("Contact " ++ name ++ " has been updated.")%string in
     rm <- match found with
           | None =>
               record <- alloc name ;;
               AddressBook.add_record record ;;;
               ret (record,
                    ("Contact " ++ name ++ " has been added.")%string)
           | Some record => ret (record, message)
           end ;;
     let '(record, message) := rm in
     (if truthy phone then on_record record (Record.add_phone phone)
      else ret tt) ;;;
     ret (VStr message)).

Definition change_contact (args : list string) : M World value :=
  input_error
    (a <- lift (unpack3 args) ;;
     let '(name, old_phone_number, new_phone_number) := a in
     found <- AddressBook.find name ;;
     match found with
     | None => ret (VStr ("Contact " ++ name ++ " not found.")%string)
     | Some record =>
         on_record record
                   (Record.edit_phone old_phone_number new_phone_number) ;;;
         ret (VStr ("Contact " ++ name ++ " has been updated.")%string)
     end).

Definition show_phone (args : list string) : M World value :=
  input_error
    (name <- lift (index0 args) ;;
     found <- AddressBook.find name ;;
     match found with
     | None => ret (VStr ("Contact " ++ name ++ " not found.")%string)
     | Some record =>
         w <- get ;;
         ret (VStr (join "; "
                         (map phone_value (Record.phones (heap w record)))))
     end).

Definition show_all : M World value :=
  input_error
    (w <- get ;;
     match data w with
     | [] => ret (VStr "No contacts available.")
     | _ => ret (VStr (join nl
                            (map Record.str (AddressBook.users w))))
     end).

Definition add_birthday (args : list string) : M World value :=
  input_error
    (nb <- lift (unpack2 args) ;;
     let '(name, birthday) := nb in
     found <- AddressBook.find name ;;
     match found with
     | None => ret (VStr ("Contact " ++ name ++ " not found.")%string)
     | Some record =>
         on_record record (Record.add_birthday birthday) ;;;
         ret (VStr ("Birthday has been added to " ++ name ++ ".")%string)
     end).

Definition show_birthday (args : list string) : M World value :=
  input_error
    (name <- lift (index0 args) ;;
     found <- AddressBook.find name ;;
     match found with
     | None => ret (VStr ("Contact " ++ name ++ " not found.")%string)
     | Some record =>
         w <- get ;;
         match Record.birthday (heap w record) with
         | None => ret VNone
         | Some b => ret (VBirthday b)
         end
     end).

Definition birthdays (current_date : Date.t) : M World value :=
  input_error
    (upcoming_birthdays <- AddressBook.get_upcoming_birthdays current_date ;;
     match upcoming_birthdays with
     | None => ret (VStr "Upcoming birthdays not found.")
     | Some text => ret (VStr text)
     end).

Definition delete_contact (args : list string) : M World value :=
  input_error
    (name <- lift (index0 args) ;;
     found <- AddressBook.find name ;;
     match found with
     | None => ret (VStr "Contact not found.")
     | Some _ =>
         AddressBook.delete name ;;;
         ret (VStr ("Contact " ++ name ++ " has been deleted.")%string)
     end).

(** ** The command loop, lines 240-309 *)

(** [s.split(' ')] *)
Fixpoint split_space (s : string) : list string :=
  match s with
  | EmptyString => [EmptyString]
  | String c s' =>
      if is_char " " c then EmptyString :: split_space s'
      else match split_space s' with
           | p :: ps => String c p :: ps
           | [] => [String c EmptyString]
           end
  end.

Fixpoint rstrip (s : string) : string :=
  match s with
  | EmptyString => EmptyString
  | String c s' =>
      match rstrip s' with
      | EmptyString => if is_space c then EmptyString else String c EmptyString
      | t => String c t
      end
  end.

Definition strip (s : string) : string := rstrip (Date.lstrip s).

(** [str.lower] on code points below 256. *)
Definition lower_char (c : ascii) : ascii :=
  let n := N_of_ascii c in
  if ((65 <=? n) && (n <=? 90)
      || (192 <=? n) && (n <=? 222) && negb (n =? 215))%N
  then ascii_of_N (n + 32) else c.

Fixpoint lower (s : string) : string :=
  match s with
  | EmptyString => EmptyString
  | String c s' => String (lower_char c) (lower s')
  end.

Definition parse_input (user_input : string) : string * list string :=
  match split_space user_input with
  | cmd :: args => (lower (strip cmd), args)
  | [] => (EmptyString, [])
  end.

Definition get_commands : string :=
  ("Available commands:" ++ nl
   ++ "- help - to show available commands" ++ nl
   ++ "- hello" ++ nl
   ++ "- add [name] [phone_number] - to add new record to the address book"
   ++ nl
   ++ "- change [name] [old_phone_number] [new_phone_number] - to change phone number"
   ++ nl
   ++ "- phone [name] - to show records phone numbers" ++ nl
   ++ "- add-birthday [name] [birthday] - to add birthday to the address book record"
   ++ nl
   ++ "- show-birthday [name] - to show birthday of the address book record"
   ++ nl
   ++ "- birthdays - to show upcoming birthdays" ++ nl
   ++ "- delete [name] - to delete record from the address book" ++ nl
   ++ "- all - to show all contacts" ++ nl
   ++ "- exit or close - to exit" ++ nl)%string.

(** One turn of the loop of [main] on the line read: the result is
    [false] at [break].  The call [save_data(book)] that opens the
    branch of [close] and [exit] (lines 284-285) writes the book to its
    file and can raise; it is left out, so that on these two commands
    the turn given here is the turn of [main] when the file is written.
    The other branches are complete. *)
Definition main_step (current_date : Date.t) (user_input : string)
  : M World bool :=
  let '(command, args) := parse_input user_input in
  let show (h : M World value) : M World bool :=
    v <- h ;; print (value_str v) ;;; ret true in
  if String.eqb command "close" || String.eqb command "exit"
  then print "Good bye!" ;;; ret false
  else if String.eqb command "help" then print get_commands ;;; ret true
  else if String.eqb command "hello"
  then print "How can I help you?" ;;; ret true
  else if String.eqb command "add" then show (add_contact args)
  else if String.eqb command "change" then show (change_contact args)
  else if String.eqb command "phone" then show (show_phone args)
  else if String.eqb command "add-birthday" then show (add_birthday args)
  else if String.eqb command "show-birthday" then show (show_birthday args)
  else if String.eqb command "birthdays" then show (birthdays current_date)
  else if String.eqb command "delete" then show (delete_contact args)
  else if String.eqb command "all" then show show_all
  else print "Invalid command." ;;; ret true.

(** The book after the loop has read [lines], from the empty book. *)
Definition session (current_date : Date.t) (lines : list string) : World :=
  fold_left (fun w line => state (main_step current_date line w))
            lines empty_world.

(** ** What callers can do to a book

    The operations open to code that holds the book and the records it
    has created: the constructor and the mutators of [Record], the
    methods of [AddressBook] and the handlers.  A record is named by a
    reference that was allocated before. *)

Inductive op :=
| OpRecord (name : string)
| OpAddPhone (r : ref) (phone_number : string)
| OpRemovePhone (r : ref) (phone_number : string)
| OpEditPhone (r : ref) (old_phone_number new_phone_number : string)
| OpAddBirthdayTo (r : ref) (birthday : string)
| OpAddRecord (r : ref)
| OpDelete (record_name : string)
| OpAddContact (args : list string)
| OpChangeContact (args : list string)
| OpAddBirthday (args : list string)
| OpDeleteContact (args : list string).

Definition op_ref (o : op) : option ref :=
  match o with
  | OpAddPhone r _ | OpRemovePhone r _ | OpEditPhone r _ _
  | OpAddBirthdayTo r _ | OpAddRecord r => Some r
  | _ => None
  end.

(** The state an operation leaves, whether it returns or raises. *)
Definition exec (o : op) (w : World) : World :=
  match o with
  | OpRecord name => state (alloc name w)
  | OpAddPhone r n => state (on_record r (Record.add_phone n) w)
  | OpRemovePhone r n => state (on_record r (Record.remove_phone n) w)
  | OpEditPhone r a b => state (on_record r (Record.edit_phone a b) w)
  | OpAddBirthdayTo r b => state (on_record r (Record.add_birthday b) w)
  | OpAddRecord r => state (AddressBook.add_record r w)
  | OpDelete n => state (AddressBook.delete n w)
  | OpAddContact args => state (add_contact args w)
  | OpChangeContact args => state (change_contact args w)
  | OpAddBirthday args => state (add_birthday args w)
  | OpDeleteContact args => state (delete_contact args w)
  end.

Inductive reachable : World -> Prop :=
| reach_empty : reachable empty_world
| reach_step w o :
    reachable w ->
    (forall r, op_ref o = Some r -> (r < next w)%nat) ->
    reachable (exec o w).

(** ** Invariant of the book and of the store *)

(** Every key is held once; every entry points at an allocated record
    whose name is its key; every birthday in the store was built by
    [Birthday]. *)
Definition inv (w : World) : Prop :=
  NoDup (map fst (data w))
  /\ (forall key r, In (key, r) (data w) ->
                    (r < next w)%nat /\ Record.name (heap w r) = key)
  /\ (forall r, birthday_ok (heap w r)).

(** [hoare P m Q]: from a state where [P] holds, [m] ends, by a result
    or by an exception, in a state that [Q] relates to the outcome. *)
Definition hoare {A} (P : World -> Prop) (m : M World A)
           (Q : exn + A -> World -> Prop) : Prop :=
  forall w, P w -> Q (result (m w)) (state (m w)).

(** A method of [Record] that keeps the name, and keeps the birthday or
    sets one that [Birthday] built. *)
Definition keeps_record (A : Type) (m : M Record.t A) : Prop :=
  forall self,
    Record.name (state (m self)) = Record.name self
    /\ (birthday_ok self -> birthday_ok (state (m self))).

(** ** Further invariants and predicates *)

(** Every phone of the record is a value that [Phone] builds from its
    own text. *)
Definition phones_ok (self : Record.t) : Prop :=
  forall p, In p (Record.phones self) -> Phone (phone_value p) = inr p.

Definition store_ok (w : World) : Prop := forall r, phones_ok (heap w r).

(** An outcome that the clause [except Exception] catches, if it is an
    exception at all. *)
Definition catchable {A} (r : exn + A) : Prop :=
  match r with
  | inl e => Exn.issubclass (Exn.cls e) Exn.Exception = true
  | inr _ => True
  end.

(** A text without the character that [split] cuts at. *)
Definition no_space (s : string) : Prop :=
  ~ In " "%char (list_ascii_of_string s).

(** The birthdays of the book have a year of four digits, 1000 or
    later: the years that [strftime] writes alike on every platform and
    that line 131 reads back. *)
Definition four_digit_years (w : World) : Prop :=
  forall user b,
    In user (AddressBook.users w) -> Record.birthday user = Some b ->
    1000 <= Date.year (birthday_date b).

(** * Proofs *)

Unset Implicit Arguments.

(** ** Characters *)

Lemma is_digit_cases (c : ascii) :
  is_digit c = true ->
  In c ["0"; "1"; "2"; "3"; "4"; "5"; "6"; "7"; "8"; "9"]%char.
Proof.
  destruct c as [[] [] [] [] [] [] [] []]; cbv; intros H;
    try discriminate H; tauto.
Qed.

(** ** [Phone] *)

(** Splits a text of known length into its characters. *)
Ltac explode s :=
  repeat match goal with
         | H : context [String.length s] |- _ =>
             destruct s as [|? s]; cbn [String.length] in H;
             try discriminate H
         end.

Lemma ten_ascii_digits_inv (s : string) :
  ten_ascii_digits s = true ->
  exists c0 c1 c2 c3 c4 c5 c6 c7 c8 c9,
    s = String c0 (String c1 (String c2 (String c3 (String c4 (String c5
         (String c6 (String c7 (String c8 (String c9 "")))))))))
    /\ forallb is_digit [c0; c1; c2; c3; c4; c5; c6; c7; c8; c9] = true.
Proof.
  unfold ten_ascii_digits. intros H.
  apply andb_prop in H. destruct H as [L D].
  apply Nat.eqb_eq in L.
  do 10 (destruct s as [|? s]; [discriminate L|]).
  destruct s; [|discriminate L].
  do 10 eexists. split; [reflexivity|exact D].
Qed.

Ltac split_digits D :=
  cbn [forallb] in D;
  repeat match type of D with
         | (_ && _ = true) =>
             let D1 := fresh "D" in
             apply andb_prop in D; destruct D as [D1 D]
         end.

Lemma Phone_ten_digits (s : string) :
  ten_ascii_digits s = true -> Phone s = inr (mkPhone s).
Proof.
  intros H. destruct (ten_ascii_digits_inv s H) as
      (c0 & c1 & c2 & c3 & c4 & c5 & c6 & c7 & c8 & c9 & -> & D).
  split_digits D.
  unfold Phone, re_match, phone_pattern. cbn -[is_digit].
  repeat match goal with E : is_digit _ = true |- _ => rewrite E; clear E end.
  reflexivity.
Qed.

Lemma Phone_ten_digits_newline (t : string) :
  ten_ascii_digits t = true ->
  Phone (t ++ String newline "") = inr (mkPhone (t ++ String newline "")).
Proof.
  intros H. destruct (ten_ascii_digits_inv t H) as
      (c0 & c1 & c2 & c3 & c4 & c5 & c6 & c7 & c8 & c9 & -> & D).
  split_digits D.
  unfold Phone, re_match, phone_pattern. cbn -[is_digit].
  repeat match goal with E : is_digit _ = true |- _ => rewrite E; clear E end.
  reflexivity.
Qed.

Lemma Phone_error (s : string) (e : exn) :
  Phone s = inl e -> e = phone_error.
Proof.
  unfold Phone. destruct (re_match phone_pattern s); congruence.
Qed.

Lemma Phone_value (s : string) (p : Phone_t) :
  Phone s = inr p -> p = mkPhone s.
Proof.
  unfold Phone. destruct (re_match phone_pattern s); congruence.
Qed.

Ltac digit_step s c :=
  destruct s as [|c s]; [discriminate|];
  destruct (is_digit c) eqn:?; [|discriminate].

Lemma Phone_inv (s : string) (p : Phone_t) :
  Phone s = inr p ->
  exists t, ten_ascii_digits t = true /\ (s = t \/ s = t ++ String newline "").
Proof.
  unfold Phone, re_match, phone_pattern. cbn -[is_digit is_char newline].
  digit_step s c0. digit_step s c1. digit_step s c2. digit_step s c3.
  digit_step s c4. digit_step s c5. digit_step s c6. digit_step s c7.
  digit_step s c8. digit_step s c9.
  intros H.
  exists (String c0 (String c1 (String c2 (String c3 (String c4 (String c5
         (String c6 (String c7 (String c8 (String c9 "")))))))))).
  split.
  - unfold ten_ascii_digits. cbn -[is_digit].
    repeat match goal with E : is_digit _ = true |- _ => rewrite E; clear E end.
    reflexivity.
  - destruct s as [|c s]; [left; reflexivity|].
    destruct s; [|discriminate H].
    destruct (is_char newline c) eqn:E; [|discriminate H].
    apply Ascii.eqb_eq in E. subst c. right. reflexivity.
Qed.

(** C4, where the code departs from the claim: [$] also matches just
    before a final newline, so [Phone] accepts a text of eleven
    characters, ten digits and a newline, and keeps it as its value. *)
Theorem Phone_accepts_final_newline :
  let s := ("1234567890" ++ String newline "")%string in
  ten_ascii_digits s = false
  /\ String.length s = 11%nat
  /\ Phone s = inr (mkPhone s)
  /\ Phone_str (mkPhone s) = s.
Proof. repeat split. Qed.

(** ** Digits and numbers *)

Lemma digit_char_val (c : ascii) :
  is_digit c = true -> digit_char (digit_val c) = c.
Proof.
  intros H. apply is_digit_cases in H. cbn in H.
  repeat (destruct H as [<-|H]; [reflexivity|]). destruct H.
Qed.

Lemma digit_val_range (c : ascii) :
  is_digit c = true -> 0 <= digit_val c <= 9.
Proof.
  intros H. apply is_digit_cases in H. cbn in H.
  repeat (destruct H as [<-|H]; [cbv; split; discriminate|]). destruct H.
Qed.

Lemma small_cases (v : Z) :
  0 <= v <= 9 ->
  In v [0; 1; 2; 3; 4; 5; 6; 7; 8; 9].
Proof.
  intros H. cbn.
  assert (v = 0 \/ v = 1 \/ v = 2 \/ v = 3 \/ v = 4 \/ v = 5 \/ v = 6
          \/ v = 7 \/ v = 8 \/ v = 9) by lia.
  intuition auto.
Qed.

Lemma digit_char_digit (v : Z) :
  0 <= v <= 9 -> is_digit (digit_char v) = true /\ digit_val (digit_char v) = v.
Proof.
  intros H. apply small_cases in H. cbn in H.
  repeat (destruct H as [<-|H]; [split; reflexivity|]). destruct H.
Qed.

Lemma zfill4_digits (c1 c2 c3 c4 : ascii) :
  forallb is_digit [c1; c2; c3; c4] = true ->
  Date.zfill 4 (1000 * digit_val c1 + 100 * digit_val c2
                + 10 * digit_val c3 + digit_val c4)
  = String c1 (String c2 (String c3 (String c4 ""))).
Proof.
  intros D. split_digits D.
  assert (0 <= digit_val c1 <= 9) by (apply digit_val_range; assumption).
  assert (0 <= digit_val c2 <= 9) by (apply digit_val_range; assumption).
  assert (0 <= digit_val c3 <= 9) by (apply digit_val_range; assumption).
  assert (0 <= digit_val c4 <= 9) by (apply digit_val_range; assumption).
  cbn [Date.zfill append].
  set (n := 1000 * digit_val c1 + 100 * digit_val c2
            + 10 * digit_val c3 + digit_val c4).
  replace (n mod 10) with (digit_val c4)
    by (subst n; Z.to_euclidean_division_equations; lia).
  replace (n / 10 mod 10) with (digit_val c3)
    by (subst n; Z.to_euclidean_division_equations; lia).
  replace (n / 10 / 10 mod 10) with (digit_val c2)
    by (subst n; Z.to_euclidean_division_equations; lia).
  replace (n / 10 / 10 / 10 mod 10) with (digit_val c1)
    by (subst n; Z.to_euclidean_division_equations; lia).
  rewrite !digit_char_val by assumption. reflexivity.
Qed.

(** ** [strptime] *)

Lemma classify (c : ascii) :
  In c ["0"; "1"; "2"; "3"; "4"; "5"; "6"; "7"; "8"; "9"; " "; "."]%char
  \/ (is_digit c = false /\ is_char " " c = false /\ is_char "." c = false
      /\ is_char "3" c = false /\ is_char "0" c = false
      /\ is_char "1" c = false /\ in_range "0" "1" c = false
      /\ in_range "1" "2" c = false /\ in_range "1" "9" c = false
      /\ in_range "0" "2" c = false).
Proof.
  destruct c as [[] [] [] [] [] [] [] []];
    first [ right; repeat split; reflexivity | left; cbn; tauto ].
Qed.

Lemma substring_0_0 (s : string) : substring 0 0 s = "".
Proof. destruct s; reflexivity. Qed.

Lemma sub_S1 (n : nat) : (S n - n = 1)%nat.
Proof. lia. Qed.

Lemma sub_S2 (n : nat) : (S (S n) - n = 2)%nat.
Proof. lia. Qed.

Ltac other_char HC H :=
  destruct HC as (?O & ?O & ?O & ?O & ?O & ?O & ?O & ?O & ?O & ?O);
  repeat match goal with
         | E : _ = false |- _ => rewrite E in H; clear E
         | E : _ = false |- _ => clear E
         end.

(** Reads the next character of [s] in the hypothesis [H] on a run of
    the matcher, one case per character that a date can hold. *)
Ltac next_char s H :=
  let c := fresh "c" in
  let HC := fresh "HC" in
  destruct s as [|c s]; [cbn in H; discriminate H|];
  destruct (classify c) as [HC|HC];
  [ cbn in HC; repeat (destruct HC as [<-|HC]; [|]); try contradiction
  | other_char HC H ];
  cbn in H; rewrite ?substring_0_0 in H; try discriminate H.

Ltac nat_norm :=
  repeat match goal with
         | |- context [(?p + ?n + 1)%nat] =>
             replace (p + n + 1)%nat with (S (n + p)) by lia; cbn [Nat.add]
         end.

(** Closes a case in which the group and the dot have been read. *)
Ltac group_done name R k H :=
  lazymatch type of H with
  | context [run R ?p ?r ((name, ?ds) :: ?gg) k] =>
      let E := fresh "E" in
      destruct (run R p r ((name, ds) :: gg) k) eqn:E; [|discriminate H];
      cbn in H; injection H as ->;
      exists (match Date.int ds with inr v => v | inl _ => 0 end), ds, r;
      cbn; nat_norm; repeat split; try discriminate; try tauto; try exact E
  end.

Lemma run_d_inv (A : Type) (R : regex) pos s g (k : cont A) a :
  run (Cat (Grp "d" Date.re_d) (Cat (Cls (is_char ".")) R)) pos s g k = Some a ->
  exists d ds rest,
    1 <= d <= 31 /\ In ds (Date.day_texts d) /\ Date.int ds = inr d
    /\ s = (ds ++ String "." rest)%string
    /\ run R (pos + String.length ds + 1) rest (("d", ds) :: g) k = Some a.
Proof.
  intros H. cbn [run Date.re_d] in H. rewrite ?sub_S1, ?sub_S2 in H.
  next_char s H; (next_char s H; try group_done "d" R k H);
    (next_char s H; try group_done "d" R k H).
Qed.

Lemma run_m_inv (A : Type) (R : regex) pos s g (k : cont A) a :
  run (Cat (Grp "m" Date.re_m) (Cat (Cls (is_char ".")) R)) pos s g k = Some a ->
  exists m ms rest,
    1 <= m <= 12 /\ In ms (Date.month_texts m) /\ Date.int ms = inr m
    /\ s = (ms ++ String "." rest)%string
    /\ run R (pos + String.length ms + 1) rest (("m", ms) :: g) k = Some a.
Proof.
  intros H. cbn [run Date.re_m] in H. rewrite ?sub_S1, ?sub_S2 in H.
  next_char s H; (next_char s H; try group_done "m" R k H);
    (next_char s H; try group_done "m" R k H).
Qed.

Lemma run_Y_inv (A : Type) pos s g (k : cont A) a :
  run (Grp "Y" Date.re_Y) pos s g k = Some a ->
  exists c1 c2 c3 c4 rest,
    s = String c1 (String c2 (String c3 (String c4 rest)))
    /\ forallb is_digit [c1; c2; c3; c4] = true
    /\ k (pos + 4)%nat rest
         (("Y", String c1 (String c2 (String c3 (String c4 "")))) :: g)
       = Some a.
Proof.
  cbn [run Date.re_Y].
  digit_step s c1. digit_step s c2. digit_step s c3. digit_step s c4.
  replace (S (S (S (S pos))) - pos)%nat with 4%nat by lia.
  cbn [substring]. rewrite substring_0_0. intros H.
  exists c1, c2, c3, c4, s. cbn [forallb].
  repeat match goal with E : is_digit _ = true |- _ => rewrite E; clear E end.
  replace (pos + 4)%nat with (S (S (S (S pos)))) by lia. auto.
Qed.

Lemma zrange_In (n : nat) (lo d : Z) :
  lo <= d < lo + Z.of_nat n -> In d (zrange lo n).
Proof.
  revert lo. induction n as [|n IH]; intros lo H; [lia|].
  cbn [zrange In]. destruct (Z.eq_dec lo d) as [E|NE]; [left; exact E|].
  right. apply IH. lia.
Qed.

(** One case per value of [d] between [lo] and [lo + n - 1]. *)
Ltac enum d lo n :=
  let H := fresh "H" in
  assert (H : In d (zrange lo n)) by (apply zrange_In; lia);
  cbn in H;
  repeat (destruct H as [<-|H]; [|]); try contradiction.

Ltac collapse :=
  repeat match goal with
         | |- context [match ?x with Some a => Some a | None => None end] =>
             replace (match x with Some a => Some a | None => None end)
               with x by (destruct x; reflexivity)
         end.

Lemma run_d_ok (A : Type) (R : regex) pos rest g (k : cont A) d ds :
  1 <= d <= 31 -> In ds (Date.day_texts d) ->
  run (Cat (Grp "d" Date.re_d) (Cat (Cls (is_char ".")) R)) pos
      (ds ++ String "." rest) g k
  = run R (pos + String.length ds + 1) rest (("d", ds) :: g) k
  /\ Date.int ds = inr d.
Proof.
  intros Hd Hin. enum d 1 31%nat.
  all: cbn in Hin; repeat (destruct Hin as [<-|Hin]; [|]); try contradiction.
  all: cbn [run Date.re_d]; rewrite ?sub_S1, ?sub_S2; cbn;
    rewrite ?substring_0_0; nat_norm; collapse; split; reflexivity.
Qed.

Lemma run_m_ok (A : Type) (R : regex) pos rest g (k : cont A) m ms :
  1 <= m <= 12 -> In ms (Date.month_texts m) ->
  run (Cat (Grp "m" Date.re_m) (Cat (Cls (is_char ".")) R)) pos
      (ms ++ String "." rest) g k
  = run R (pos + String.length ms + 1) rest (("m", ms) :: g) k
  /\ Date.int ms = inr m.
Proof.
  intros Hm Hin. enum m 1 12%nat.
  all: cbn in Hin; repeat (destruct Hin as [<-|Hin]; [|]); try contradiction.
  all: cbn [run Date.re_m]; rewrite ?sub_S1, ?sub_S2; cbn;
    rewrite ?substring_0_0; nat_norm; collapse; split; reflexivity.
Qed.

Lemma length_append (a b : string) :
  String.length (a ++ b) = (String.length a + String.length b)%nat.
Proof. induction a as [|c a IH]; cbn; [reflexivity|]. now rewrite IH. Qed.

Lemma is_digit_not_space (c : ascii) : is_digit c = true -> is_space c = false.
Proof.
  intros H. apply is_digit_cases in H. cbn in H.
  repeat (destruct H as [<-|H]; [reflexivity|]). destruct H.
Qed.

Lemma int_digits4 (c1 c2 c3 c4 : ascii) :
  forallb is_digit [c1; c2; c3; c4] = true ->
  Date.int (String c1 (String c2 (String c3 (String c4 ""))))
  = inr (1000 * digit_val c1 + 100 * digit_val c2
         + 10 * digit_val c3 + digit_val c4).
Proof.
  intros D. split_digits D.
  unfold Date.int. cbn [Date.lstrip].
  rewrite (is_digit_not_space c1) by assumption.
  cbn [Date.digits_value].
  repeat match goal with E : is_digit _ = true |- _ => rewrite E; clear E end.
  f_equal. lia.
Qed.

Lemma run_Y_ok (A : Type) pos rest g (k : cont A) (c1 c2 c3 c4 : ascii) :
  forallb is_digit [c1; c2; c3; c4] = true ->
  run (Grp "Y" Date.re_Y) pos
      (String c1 (String c2 (String c3 (String c4 rest)))) g k
  = k (pos + 4)%nat rest
      (("Y", String c1 (String c2 (String c3 (String c4 "")))) :: g).
Proof.
  intros D. split_digits D. cbn [run Date.re_Y].
  repeat match goal with E : is_digit _ = true |- _ => rewrite E; clear E end.
  replace (S (S (S (S pos))) - pos)%nat with 4%nat by lia.
  cbn [substring]. rewrite substring_0_0.
  replace (pos + 4)%nat with (S (S (S (S pos)))) by lia. reflexivity.
Qed.

Lemma zfill4_shape (y : Z) :
  0 <= y <= 9999 ->
  exists c1 c2 c3 c4,
    Date.zfill 4 y = String c1 (String c2 (String c3 (String c4 "")))
    /\ forallb is_digit [c1; c2; c3; c4] = true
    /\ 1000 * digit_val c1 + 100 * digit_val c2
       + 10 * digit_val c3 + digit_val c4 = y.
Proof.
  intros H.
  exists (digit_char (y / 10 / 10 / 10 mod 10)), (digit_char (y / 10 / 10 mod 10)),
    (digit_char (y / 10 mod 10)), (digit_char (y mod 10)).
  split; [reflexivity|].
  assert (R1 : 0 <= y / 10 / 10 / 10 mod 10 <= 9)
    by (Z.to_euclidean_division_equations; lia).
  assert (R2 : 0 <= y / 10 / 10 mod 10 <= 9)
    by (Z.to_euclidean_division_equations; lia).
  assert (R3 : 0 <= y / 10 mod 10 <= 9)
    by (Z.to_euclidean_division_equations; lia).
  assert (R4 : 0 <= y mod 10 <= 9)
    by (Z.to_euclidean_division_equations; lia).
  destruct (digit_char_digit _ R1) as [E1 V1].
  destruct (digit_char_digit _ R2) as [E2 V2].
  destruct (digit_char_digit _ R3) as [E3 V3].
  destruct (digit_char_digit _ R4) as [E4 V4].
  cbn [forallb]. rewrite E1, E2, E3, E4, V1, V2, V3, V4.
  split; [reflexivity|].
  Z.to_euclidean_division_equations; lia.
Qed.

Lemma new_inv (y m d : Z) (x : Date.t) :
  Date.new y m d = inr x -> x = Date.mk y m d /\ Date.valid x = true.
Proof.
  unfold Date.new, Date.valid.
  destruct ((Date.MINYEAR <=? y) && (y <=? Date.MAXYEAR)) eqn:Y;
    [|discriminate].
  destruct ((1 <=? m) && (m <=? 12)) eqn:Mo; [|discriminate].
  destruct ((1 <=? d) && (d <=? Date._days_in_month y m)) eqn:Da;
    [|discriminate].
  cbn [negb]. intros [= <-]. cbn [Date.year Date.month Date.day].
  apply andb_prop in Y, Mo, Da.
  destruct Y as [-> ->], Mo as [-> ->], Da as [-> ->]. auto.
Qed.

Lemma new_valid (x : Date.t) :
  Date.valid x = true ->
  Date.new (Date.year x) (Date.month x) (Date.day x) = inr x.
Proof.
  unfold Date.new, Date.valid. destruct x as [y m d].
  cbn [Date.year Date.month Date.day]. intros H.
  repeat (apply andb_prop in H; destruct H as [H ?]).
  repeat match goal with E : _ = true |- _ => rewrite E; clear E end.
  reflexivity.
Qed.

Lemma new_error (y m d : Z) (e : exn) :
  Date.new y m d = inl e -> Exn.cls e = Exn.ValueError.
Proof.
  unfold Date.new.
  repeat match goal with
         | |- context [if ?b then _ else _] => destruct b
         end; intros [= <-]; reflexivity.
Qed.

Lemma int_error (s : string) (e : exn) :
  Date.int s = inl e -> Exn.cls e = Exn.ValueError.
Proof.
  unfold Date.int. destruct (Date.lstrip s); [intros [= <-]; reflexivity|].
  destruct (Date.digits_value _ _); [discriminate|].
  intros [= <-]; reflexivity.
Qed.

Lemma strptime_error (s : string) (e : exn) :
  Date.strptime s = inl e -> Exn.cls e = Exn.ValueError.
Proof.
  unfold Date.strptime.
  destruct (re_match Date.format_regex s); [|intros [= <-]; reflexivity].
  destruct (negb _); [intros [= <-]; reflexivity|].
  destruct (Date.int _) eqn:E1; [intros [= <-]; eapply int_error; eauto|].
  destruct (Date.int (group "m" _)) eqn:E2;
    [intros [= <-]; eapply int_error; eauto|].
  destruct (Date.int (group "d" _)) eqn:E3;
    [intros [= <-]; eapply int_error; eauto|].
  apply new_error.
Qed.

Lemma strptime_inv (s : string) (x : Date.t) :
  Date.strptime s = inr x ->
  Date.valid x = true /\ In s (Date.accepted_texts x).
Proof.
  unfold Date.strptime.
  destruct (re_match Date.format_regex s) as [found|] eqn:M; [|discriminate].
  unfold re_match, Date.format_regex in M.
  apply run_d_inv in M.
  destruct M as (d & ds & r1 & Hd & Hds & Id & -> & M).
  apply run_m_inv in M.
  destruct M as (m & ms & r2 & Hm & Hms & Im & -> & M).
  apply run_Y_inv in M.
  destruct M as (c1 & c2 & c3 & c4 & rest & -> & D & M).
  injection M as <-. cbn [m_end m_groups group String.eqb Ascii.eqb Bool.eqb].
  rewrite Id, Im, (int_digits4 _ _ _ _ D).
  destruct (negb _) eqn:L; [discriminate|].
  apply negb_false_iff, Nat.eqb_eq in L.
  rewrite !length_append in L. cbn [String.length] in L.
  rewrite !length_append in L. cbn [String.length] in L.
  assert (rest = "") as -> by (destruct rest; [reflexivity|cbn in L; lia]).
  intros N. apply new_inv in N. destruct N as [-> V]. split; [exact V|].
  unfold Date.accepted_texts. cbn [Date.year Date.month Date.day].
  apply in_flat_map. exists ds. split; [exact Hds|].
  apply in_map_iff. exists ms. split; [|exact Hms].
  unfold Date.dotted. now rewrite (zfill4_digits _ _ _ _ D).
Qed.

Lemma strptime_ok (s : string) (x : Date.t) :
  Date.valid x = true -> In s (Date.accepted_texts x) ->
  Date.strptime s = inr x.
Proof.
  intros V Hin. unfold Date.accepted_texts in Hin.
  apply in_flat_map in Hin. destruct Hin as (ds & Hds & Hin).
  apply in_map_iff in Hin. destruct Hin as (ms & <- & Hms).
  pose proof V as V'. unfold Date.valid in V'.
  repeat (apply andb_prop in V'; destruct V' as [V' ?]).
  assert (Hy : 0 <= Date.year x <= 9999) by (unfold Date.MINYEAR, Date.MAXYEAR in *; lia).
  assert (Hm : 1 <= Date.month x <= 12) by lia.
  assert (Hd : 1 <= Date.day x <= 31).
  { split; [lia|].
    assert (Date._days_in_month (Date.year x) (Date.month x) <= 31); [|lia].
    unfold Date._days_in_month. destruct (_ && _); [lia|].
    enum (Date.month x) 1 12%nat; cbn; lia. }
  destruct (zfill4_shape _ Hy) as (c1 & c2 & c3 & c4 & EY & D & VY).
  unfold Date.strptime, re_match, Date.format_regex, Date.dotted.
  destruct (@run_d_ok _ (Cat (Grp "m" Date.re_m)
                        (Cat (Cls (is_char ".")) (Grp "Y" Date.re_Y)))
              0 (ms ++ String "." (Date.zfill 4 (Date.year x))) []
              (fun pos _ g => Some {| m_end := pos; m_groups := g |})
              _ _ Hd Hds) as [-> Id].
  destruct (@run_m_ok _ (Grp "Y" Date.re_Y) (0 + String.length ds + 1)
              (Date.zfill 4 (Date.year x)) [("d", ds)]
              (fun pos _ g => Some {| m_end := pos; m_groups := g |})
              _ _ Hm Hms) as [-> Im].
  rewrite EY, (@run_Y_ok _ _ _ _ _ _ _ _ _ D).
  cbn [m_end m_groups group String.eqb Ascii.eqb Bool.eqb].
  rewrite Id, Im, (int_digits4 _ _ _ _ D), VY.
  rewrite !length_append. cbn [String.length].
  rewrite !length_append. cbn [String.length].
  replace (_ =? _)%nat with true by (symmetry; apply Nat.eqb_eq; lia).
  cbn [negb]. now apply new_valid.
Qed.

(** ** [strftime] and the strict text of a date *)

Lemma zfill2_digits (c1 c2 : ascii) :
  is_digit c1 = true -> is_digit c2 = true ->
  Date.zfill 2 (10 * digit_val c1 + digit_val c2) = String c1 (String c2 "").
Proof.
  intros D1 D2.
  pose proof (digit_val_range _ D1). pose proof (digit_val_range _ D2).
  cbn [Date.zfill append].
  set (n := 10 * digit_val c1 + digit_val c2).
  replace (n mod 10) with (digit_val c2)
    by (subst n; Z.to_euclidean_division_equations; lia).
  replace (n / 10 mod 10) with (digit_val c1)
    by (subst n; Z.to_euclidean_division_equations; lia).
  rewrite !digit_char_val by assumption. reflexivity.
Qed.

Lemma zfill2_shape (d : Z) :
  0 <= d <= 99 ->
  exists c1 c2,
    Date.zfill 2 d = String c1 (String c2 "")
    /\ is_digit c1 = true /\ is_digit c2 = true
    /\ 10 * digit_val c1 + digit_val c2 = d.
Proof.
  intros H.
  exists (digit_char (d / 10 mod 10)), (digit_char (d mod 10)).
  split; [reflexivity|].
  assert (R1 : 0 <= d / 10 mod 10 <= 9)
    by (Z.to_euclidean_division_equations; lia).
  assert (R2 : 0 <= d mod 10 <= 9)
    by (Z.to_euclidean_division_equations; lia).
  destruct (digit_char_digit _ R1) as [E1 V1].
  destruct (digit_char_digit _ R2) as [E2 V2].
  rewrite E1, E2, V1, V2. repeat split.
  Z.to_euclidean_division_equations; lia.
Qed.

Lemma valid_bounds (x : Date.t) :
  Date.valid x = true ->
  1 <= Date.year x <= 9999 /\ 1 <= Date.month x <= 12
  /\ 1 <= Date.day x <= Date._days_in_month (Date.year x) (Date.month x)
  /\ Date.day x <= 31.
Proof.
  unfold Date.valid, Date.MINYEAR, Date.MAXYEAR. intros V.
  repeat (apply andb_prop in V; destruct V as [V ?]).
  assert (Date._days_in_month (Date.year x) (Date.month x) <= 31).
  { unfold Date._days_in_month. destruct (_ && _); [lia|].
    enum (Date.month x) 1 12%nat; cbn; lia. }
  lia.
Qed.

Lemma strftime_accepted (x : Date.t) :
  In (Date.strftime x) (Date.accepted_texts x).
Proof.
  unfold Date.accepted_texts. apply in_flat_map.
  exists (Date.zfill 2 (Date.day x)). split.
  - unfold Date.day_texts. destruct (_ <? _); left; reflexivity.
  - apply in_map_iff. exists (Date.zfill 2 (Date.month x)). split.
    + reflexivity.
    + unfold Date.month_texts. destruct (_ <? _); left; reflexivity.
Qed.

(** Reading back what [strftime] wrote. *)
Lemma strptime_strftime (x : Date.t) :
  Date.valid x = true -> Date.strptime (Date.strftime x) = inr x.
Proof.
  intros V. apply strptime_ok; [exact V|apply strftime_accepted].
Qed.

Lemma strict_strftime (x : Date.t) :
  Date.valid x = true -> Date.strict_date_text (Date.strftime x) = Some x.
Proof.
  intros V. destruct (valid_bounds x V) as (Hy & Hm & Hd & Hd').
  destruct (zfill2_shape (Date.day x)) as (d1 & d2 & ED & Dd1 & Dd2 & VD);
    [lia|].
  destruct (zfill2_shape (Date.month x)) as (m1 & m2 & EM & Dm1 & Dm2 & VM);
    [lia|].
  destruct (zfill4_shape (Date.year x)) as (y1 & y2 & y3 & y4 & EY & DY & VY);
    [lia|].
  unfold Date.strftime. rewrite ED, EM, EY. split_digits DY.
  cbn [append Date.strict_date_text forallb].
  repeat match goal with E : is_digit _ = true |- _ => rewrite E; clear E end.
  cbn [andb is_char Ascii.eqb Bool.eqb]. rewrite VY, VM, VD.
  destruct x as [y m d]. cbn [Date.year Date.month Date.day] in *.
  now rewrite V.
Qed.

Lemma strict_date_text_inv (s : string) (x : Date.t) :
  Date.strict_date_text s = Some x ->
  Date.valid x = true /\ s = Date.strftime x.
Proof.
  unfold Date.strict_date_text.
  do 10 (destruct s as [|? s]; [discriminate|]).
  destruct s; [|discriminate].
  destruct (forallb _ _ && _ && _) eqn:F; [|discriminate].
  apply andb_prop in F. destruct F as [F P2].
  apply andb_prop in F. destruct F as [D P1].
  apply Ascii.eqb_eq in P1, P2. subst.
  split_digits D.
  match goal with
  | |- context [Date.valid ?d] => destruct (Date.valid d) eqn:V; [|discriminate]
  end.
  match goal with
  | |- Some ?d = Some x -> _ =>
      intros E; assert (Ex : x = d) by congruence; clear E; subst x
  end.
  split; [exact V|].
  unfold Date.strftime. cbv [Date.year Date.month Date.day].
  rewrite zfill4_digits
    by (cbn [forallb];
        repeat match goal with E : is_digit _ = true |- _ => rewrite E end;
        reflexivity).
  rewrite !zfill2_digits by assumption. reflexivity.
Qed.

(** ** [Birthday] *)

Lemma Birthday_inr (s : string) (b : Birthday_t) :
  Birthday s = inr b <-> Date.strptime s = inr (birthday_date b).
Proof.
  unfold Birthday. destruct (Date.strptime s) as [e|x] eqn:E.
  - split; [|discriminate].
    destruct (Exn.issubclass _ _); discriminate.
  - destruct b as [y]. cbn. split; congruence.
Qed.

Lemma Birthday_inl (s : string) (e : exn) :
  Birthday s = inl e -> e = birthday_error.
Proof.
  unfold Birthday. destruct (Date.strptime s) as [e'|x] eqn:E; [|discriminate].
  rewrite (strptime_error _ _ E). cbn. congruence.
Qed.

(** A [Birthday] that was constructed holds a date that [date]
    accepts. *)
Lemma Birthday_valid (s : string) (b : Birthday_t) :
  Birthday s = inr b -> Date.valid (birthday_date b) = true.
Proof.
  intros H. apply Birthday_inr, strptime_inv in H. tauto.
Qed.

(** C5, the claim as it stands fails: a day and a month on one digit
    are read. *)
Lemma Birthday_reads_one_digit_day_and_month :
  Birthday "1.2.2024" = inr (mkBirthday (Date.mk 2024 2 1))
  /\ Date.strict_date_text "1.2.2024" = None
  /\ Birthday_str (mkBirthday (Date.mk 2024 2 1)) = "01.02.2024".
Proof. repeat split. Qed.

(** C5, amended: of the texts whose characters are code points below
    256, [Birthday] succeeds exactly on the texts D.M.YYYY of a real
    calendar date, the day on two digits or on one digit with an
    optional space before it, the month on one or two digits, the year
    on four; every strict DD.MM.YYYY text of a real date is among them;
    when the year is 1000 or later such a text is rendered back
    unchanged and the rendering of a [Birthday] is the strict text of
    its date; every other text of such characters fails with the one
    error of the class. *)
Theorem Birthday_reads_the_accepted_texts (s : string) :
  (forall b, Birthday s = inr b
             <-> Date.valid (birthday_date b) = true
                 /\ In s (Date.accepted_texts (birthday_date b)))
  /\ (forall x, Date.strict_date_text s = Some x ->
                Birthday s = inr (mkBirthday x)
                /\ (1000 <= Date.year x -> Birthday_str (mkBirthday x) = s))
  /\ (forall b, Birthday s = inr b ->
                1000 <= Date.year (birthday_date b) ->
                Date.strict_date_text (Birthday_str b) = Some (birthday_date b))
  /\ (forall e, Birthday s = inl e -> e = birthday_error).
Proof.
  split; [|split; [|split]].
  - intros b. split.
    + intros H. apply Birthday_inr, strptime_inv in H. exact H.
    + intros [V Hin]. apply Birthday_inr. now apply strptime_ok.
  - intros x H. apply strict_date_text_inv in H. destruct H as [V ->].
    split; [|reflexivity]. apply Birthday_inr. now apply strptime_strftime.
  - intros b H _. apply strict_strftime. eapply Birthday_valid; eauto.
  - apply Birthday_inl.
Qed.

(** ** Ordinals *)

Lemma days_before_year_eq (a b c d : Z) :
  0 <= a -> 0 <= b <= 3 -> 0 <= c <= 24 -> 0 <= d <= 3 ->
  Date._days_before_year (400 * a + 100 * b + 4 * c + d + 1)
  = 146097 * a + 36524 * b + 1461 * c + 365 * d.
Proof.
  intros. unfold Date._days_before_year.
  Z.to_euclidean_division_equations. lia.
Qed.

Lemma is_leap_eq (a b c d : Z) :
  0 <= a -> 0 <= b <= 3 -> 0 <= c <= 24 -> 0 <= d <= 3 ->
  Date._is_leap (400 * a + 100 * b + 4 * c + d + 1)
  = (d =? 3) && (negb (c =? 24) || (b =? 3)).
Proof.
  intros. unfold Date._is_leap.
  destruct (d =? 3) eqn:E1, (c =? 24) eqn:E2, (b =? 3) eqn:E3; cbn [andb orb negb];
  repeat match goal with
         | |- context [?x =? ?y] => destruct (Z.eqb_spec x y)
         end; cbn [andb orb negb]; try reflexivity; exfalso;
  repeat match goal with
         | E : (_ =? _) = true |- _ => apply Z.eqb_eq in E
         | E : (_ =? _) = false |- _ => apply Z.eqb_neq in E
         end;
  Z.to_euclidean_division_equations; lia.
Qed.

(** Evaluates the comparisons between numerals and the look-ups in the
    month tables, and nothing else. *)
Ltac ground :=
  repeat match goal with
         | |- context [Z.ltb ?a ?b] =>
             let v := eval vm_compute in (Z.ltb a b) in
             lazymatch v with true => idtac | false => idtac end;
             change (Z.ltb a b) with v
         | |- context [Z.eqb ?a ?b] =>
             let v := eval vm_compute in (Z.eqb a b) in
             lazymatch v with true => idtac | false => idtac end;
             change (Z.eqb a b) with v
         | |- context [Z.leb ?a ?b] =>
             let v := eval vm_compute in (Z.leb a b) in
             lazymatch v with true => idtac | false => idtac end;
             change (Z.leb a b) with v
         | |- context [Z.pos ?p - 1] =>
             let v := eval vm_compute in (Z.pos p - 1) in
             change (Z.pos p - 1) with v
         end;
  cbv [Date._DAYS_BEFORE_MONTH Date._DAYS_IN_MONTH negb andb orb].

Lemma ord2ymd_ymd2ord (n : Z) :
  1 <= n ->
  Date.toordinal (Date.fromordinal n) = n.
Proof.
  intros Hn. unfold Date.toordinal, Date.fromordinal, Date._ord2ymd.
  change Date._DI400Y with 146097. change Date._DI100Y with 36524.
  change Date._DI4Y with 1461.
  set (n0 := n - 1).
  assert (H0 : 0 <= n0) by (subst n0; lia).
  assert (En : n = n0 + 1) by (subst n0; lia).
  clearbody n0. subst n. clear Hn.
  pose proof (Z.div_mod n0 146097 ltac:(lia)) as E1.
  pose proof (Z.mod_pos_bound n0 146097 ltac:(lia)) as B1.
  set (q := n0 / 146097) in *. set (r := n0 mod 146097) in *.
  pose proof (Z.div_mod r 36524 ltac:(lia)) as E2.
  pose proof (Z.mod_pos_bound r 36524 ltac:(lia)) as B2.
  set (b := r / 36524) in *. set (r2 := r mod 36524) in *.
  pose proof (Z.div_mod r2 1461 ltac:(lia)) as E3.
  pose proof (Z.mod_pos_bound r2 1461 ltac:(lia)) as B3.
  set (c := r2 / 1461) in *. set (r3 := r2 mod 1461) in *.
  pose proof (Z.div_mod r3 365 ltac:(lia)) as E4.
  pose proof (Z.mod_pos_bound r3 365 ltac:(lia)) as B4.
  set (d := r3 / 365) in *. set (r4 := r3 mod 365) in *.
  clearbody q r b r2 c r3 d r4.
  assert (Hq : 0 <= q) by lia.
  assert (Hb : 0 <= b <= 4) by lia.
  assert (Hc : 0 <= c <= 24) by lia.
  assert (Hd : 0 <= d <= 4) by lia.
  destruct ((d =? 4) || (b =? 4)) eqn:Last.
  - cbn [Date.year Date.month Date.day]. unfold Date._ymd2ord.
    destruct (Z.eqb_spec d 4) as [D4|D4].
    + assert (b <= 3 /\ c <= 23 /\ r4 = 0) as (Hb' & Hc' & Hr) by lia.
      replace (q * 400 + 1 + b * 100 + c * 4 + d - 1)
        with (400 * q + 100 * b + 4 * c + 3 + 1) by lia.
      unfold Date._days_before_month.
      rewrite days_before_year_eq, is_leap_eq by lia.
      replace (c =? 24) with false by (symmetry; apply Z.eqb_neq; lia).
      ground. lia.
    + destruct (Z.eqb_spec b 4) as [B4'|B4']; [|discriminate Last].
      assert (c = 0 /\ d = 0 /\ r4 = 0) as (-> & -> & ->) by lia.
      subst b.
      replace (q * 400 + 1 + 4 * 100 + 0 * 4 + 0 - 1)
        with (400 * q + 100 * 3 + 4 * 24 + 3 + 1) by lia.
      unfold Date._days_before_month.
      rewrite days_before_year_eq, is_leap_eq by lia.
      ground. lia.
  - apply orb_false_iff in Last. destruct Last as [D4 B4'].
    apply Z.eqb_neq in D4, B4'.
    assert (Hb' : 0 <= b <= 3) by lia. assert (Hd' : 0 <= d <= 3) by lia.
    rewrite Z.shiftr_div_pow2 by lia. change (2 ^ 5) with 32.
    pose proof (Z.div_mod (r4 + 50) 32 ltac:(lia)) as E5.
    pose proof (Z.mod_pos_bound (r4 + 50) 32 ltac:(lia)) as B5.
    set (m := (r4 + 50) / 32) in *. set (rm := (r4 + 50) mod 32) in *.
    clearbody m rm.
    set (leapyear := (d =? 3) && (negb (c =? 24) || (b =? 3))).
    assert (Hleap : Date._is_leap (q * 400 + 1 + b * 100 + c * 4 + d) = leapyear).
    { replace (q * 400 + 1 + b * 100 + c * 4 + d)
        with (400 * q + 100 * b + 4 * c + d + 1) by lia.
      now apply is_leap_eq. }
    assert (Hdays : Date._days_before_year (q * 400 + 1 + b * 100 + c * 4 + d)
                    = 146097 * q + 36524 * b + 1461 * c + 365 * d).
    { replace (q * 400 + 1 + b * 100 + c * 4 + d)
        with (400 * q + 100 * b + 4 * c + d + 1) by lia.
      now apply days_before_year_eq. }
    clearbody leapyear.
    enum m 1 12%nat.
    all: ground; destruct leapyear;
      match goal with
      | |- context [if ?x <? ?k then _ else _] => destruct (Z.ltb_spec x k)
      end;
      cbv [Date.year Date.month Date.day Date._ymd2ord Date._days_before_month];
      rewrite ?Hdays, ?Hleap; ground; lia.
Qed.

Lemma toordinal_bounds (x : Date.t) :
  Date.valid x = true -> 1 <= Date.toordinal x <= Date._MAXORDINAL.
Proof.
  intros V. destruct (valid_bounds x V) as (Hy & Hm & Hd & _).
  destruct x as [y m d]. cbv [Date.year Date.month Date.day] in *.
  unfold Date.toordinal, Date._ymd2ord, Date._days_before_month,
    Date._days_in_month, Date._MAXORDINAL in *.
  cbv [Date.year Date.month Date.day] in *.
  assert (L : Date._is_leap y = true -> y <= 9996).
  { unfold Date._is_leap. intros L. apply andb_prop in L.
    destruct L as [L _]. apply Z.eqb_eq in L.
    Z.to_euclidean_division_equations; lia. }
  unfold Date._days_before_year.
  enum m 1 12%nat; revert Hd; ground; destruct (Date._is_leap y);
    intros Hd; try specialize (L eq_refl);
    Z.to_euclidean_division_equations; lia.
Qed.

(** A Saturday or a Sunday is followed by a Monday that [date] can
    hold. *)
Lemma add_days_weekend (x : Date.t) :
  Date.valid x = true -> 5 <= Date.weekday x ->
  exists monday,
    Date.add_days x (WEEK_LENGTH - Date.weekday x) = inr monday
    /\ Date.toordinal monday
       = Date.toordinal x + (WEEK_LENGTH - Date.weekday x)
    /\ Date.weekday monday = 0
    /\ 1 <= Date.toordinal monday - Date.toordinal x <= 2.
Proof.
  intros V W. pose proof (toordinal_bounds x V) as B.
  unfold Date._MAXORDINAL in B.
  unfold Date.add_days, WEEK_LENGTH, Date._MAXORDINAL.
  assert (W' : Date.weekday x <= 6)
    by (unfold Date.weekday; Z.to_euclidean_division_equations; lia).
  set (o := Date.toordinal x + (7 - Date.weekday x)).
  assert (Ho : 1 <= o <= 3652059).
  { subst o. unfold Date.weekday in *.
    Z.to_euclidean_division_equations; lia. }
  replace ((0 <? o) && (o <=? 3652059)) with true
    by (symmetry; apply andb_true_iff; split;
        [apply Z.ltb_lt|apply Z.leb_le]; lia).
  exists (Date.fromordinal o).
  rewrite ord2ymd_ymd2ord by lia.
  repeat split; try lia.
  unfold Date.weekday at 1. rewrite ord2ymd_ymd2ord by lia.
  subst o. unfold Date.weekday in *.
  Z.to_euclidean_division_equations; lia.
Qed.


(** ** [Record] *)

Lemma first_with_value_none (n : string) (l : list Phone_t) :
  (forall p, In p l -> phone_value p <> n) ->
  Record.first_with_value n l = None.
Proof.
  unfold Record.first_with_value. intros H.
  induction l as [|p l IH]; [reflexivity|]. cbn [find].
  destruct (String.eqb_spec (phone_value p) n) as [E|_].
  - exfalso. apply (H p); [left; reflexivity|exact E].
  - apply IH. intros q Hq. apply H. right. exact Hq.
Qed.

Lemma first_with_value_split (n : string) (l1 l2 : list Phone_t) (p : Phone_t) :
  (forall q, In q l1 -> phone_value q <> n) -> phone_value p = n ->
  Record.first_with_value n (l1 ++ p :: l2) = Some p
  /\ Record.list_remove n (l1 ++ p :: l2) = (l1 ++ l2)%list.
Proof.
  unfold Record.first_with_value. intros H E.
  induction l1 as [|q l1 IH]; cbn [app find Record.list_remove].
  - rewrite E, String.eqb_refl. auto.
  - destruct (String.eqb_spec (phone_value q) n) as [E'|_].
    + exfalso. apply (H q); [left; reflexivity|exact E'].
    + destruct IH as [IH1 IH2].
      * intros q' Hq'. apply H. right. exact Hq'.
      * rewrite IH1, IH2. auto.
Qed.

(** C6: when [new] is a valid 10-digit phone, [edit_phone old new] on a
    record that does not hold [old] keeps every phone in place and
    appends [new] (the removal does nothing but print its diagnostic and
    raises nothing); on a record that holds [old] it removes the first
    phone equal to [old] and appends [new].  The name and the birthday
    are untouched. *)
Theorem edit_phone_removes_first_and_appends
        (self : Record.t) (old new : string) :
  ten_ascii_digits new = true ->
  ((forall p, In p (Record.phones self) -> phone_value p <> old) ->
   Record.edit_phone old new self
   = (inr tt,
      Record.mk (Record.name self)
                (Record.phones self ++ [mkPhone new])
                (Record.birthday self),
      ["Phone number not found."]))
  /\ (forall l1 p l2,
         Record.phones self = (l1 ++ p :: l2)%list ->
         (forall q, In q l1 -> phone_value q <> old) ->
         phone_value p = old ->
         Record.edit_phone old new self
         = (inr tt,
            Record.mk (Record.name self) (l1 ++ l2 ++ [mkPhone new])
                      (Record.birthday self),
            [])).
Proof.
  intros Hnew. apply Phone_ten_digits in Hnew.
  unfold Record.edit_phone, Record.remove_phone, Record.add_phone,
    bind, get, put, lift, print.
  split.
  - intros Habs. rewrite (first_with_value_none _ _ Habs), Hnew. reflexivity.
  - intros l1 p l2 Hl Hbefore Hp.
    destruct (first_with_value_split old l1 l2 p Hbefore Hp) as [F R].
    rewrite Hl, F, Hp, R, Hnew. cbn. now rewrite <- app_assoc.
Qed.

Lemma edit_phone_witness :
  let self := Record.mk "Alice" [mkPhone "1111111111"; mkPhone "2222222222"]
                        None in
  Record.edit_phone "3333333333" "4444444444" self
  = (inr tt,
     Record.mk "Alice" [mkPhone "1111111111"; mkPhone "2222222222";
                        mkPhone "4444444444"] None,
     ["Phone number not found."])
  /\ Record.edit_phone "1111111111" "4444444444" self
     = (inr tt,
        Record.mk "Alice" [mkPhone "2222222222"; mkPhone "4444444444"] None,
        []).
Proof.
  intros self.
  destruct (edit_phone_removes_first_and_appends
              self "3333333333" "4444444444" eq_refl) as [H1 _].
  destruct (edit_phone_removes_first_and_appends
              self "1111111111" "4444444444" eq_refl) as [_ H2].
  split.
  - apply H1. intros p [<-|[<-|[]]]; discriminate.
  - apply (H2 [] (mkPhone "1111111111") [mkPhone "2222222222"]).
    + reflexivity.
    + intros q [].
    + reflexivity.
Defined.

(** C10: when [Birthday] rejects the text, [add_birthday] raises its
    error and leaves the record as it was: the birthday stored before
    (or none), the name and the phones.  The same holds of the record in
    the store when the method is called through a reference. *)
Theorem add_birthday_failure_keeps_record
        (self : Record.t) (text : string) (e : exn) :
  Birthday text = inl e ->
  Record.add_birthday text self = (inl birthday_error, self, [])
  /\ (forall w r r',
         heap (state (on_record r (Record.add_birthday text) w)) r'
         = heap w r').
Proof.
  intros H. pose proof (Birthday_inl _ _ H) as ->.
  unfold Record.add_birthday, on_record, bind, lift, state. rewrite H.
  split; [reflexivity|]. intros w r r'. cbn. unfold heap_set.
  destruct (Nat.eqb_spec r' r) as [->|_]; reflexivity.
Qed.

Lemma add_birthday_failure_witness :
  let self := Record.mk "Alice" [mkPhone "1111111111"]
                        (Some (mkBirthday (Date.mk 1990 6 15))) in
  Record.add_birthday "31.02.2024" self = (inl birthday_error, self, []).
Proof.
  intros self.
  exact (proj1 (add_birthday_failure_keeps_record
                  self "31.02.2024" birthday_error eq_refl)).
Defined.

(** ** The loop of [get_upcoming_birthdays] *)

Lemma replace_year_inv (x : Date.t) (y : Z) (a : Date.t) :
  Date.replace_year x y = inr a ->
  a = Date.mk y (Date.month x) (Date.day x) /\ Date.valid a = true.
Proof. apply new_inv. Qed.

(** Re-anchoring a date that [date] accepts onto a year of its range
    fails on 29 February of a year that is not leap, and only there. *)
Lemma replace_year_valid (x : Date.t) (y : Z) :
  Date.valid x = true -> 1 <= y <= 9999 ->
  if (Date.month x =? 2) && (Date.day x =? 29) && negb (Date._is_leap y)
  then Date.replace_year x y
       = Raise Exn.ValueError "day is out of range for month"
  else Date.replace_year x y = inr (Date.mk y (Date.month x) (Date.day x)).
Proof.
  intros V Hy. destruct (valid_bounds x V) as (_ & Hm & Hd & _).
  unfold Date.replace_year, Date.new, Date.MINYEAR, Date.MAXYEAR.
  replace ((1 <=? y) && (y <=? 9999)) with true
    by (symmetry; apply andb_true_iff; split; apply Z.leb_le; lia).
  replace ((1 <=? Date.month x) && (Date.month x <=? 12)) with true
    by (symmetry; apply andb_true_iff; split; apply Z.leb_le; lia).
  cbv [negb]. revert Hd. unfold Date._days_in_month.
  enum (Date.month x) 1 12%nat; ground;
    destruct (Date._is_leap (Date.year x)), (Date._is_leap y);
    cbv [negb andb]; intros Hd;
    repeat match goal with
           | |- context [Date.day x =? ?k] =>
               destruct (Z.eqb_spec (Date.day x) k)
           | |- context [?a <=? ?b] => destruct (Z.leb_spec a b)
           end; cbv [negb andb]; try reflexivity; lia.
Qed.

(** One turn of the loop on a record whose birthday [Birthday] built:
    reading back the text of the birthday gives its date, and the shift
    to Monday never leaves the range of [date]. *)
Lemma upcoming_eq (current_date : Date.t) (user : Record.t) :
  birthday_ok user ->
  AddressBook.upcoming current_date user =
  match Record.birthday user with
  | None => inr None
  | Some b =>
      match Date.replace_year (birthday_date b) (Date.year current_date) with
      | inl e => inl e
      | inr anchored =>
          if qualifies current_date user
          then if Date.weekday anchored <? WEEKDAYS_LENGTH
               then inr (Some (user, CongText (Date.strftime anchored)))
               else inr (Some (user,
                           CongDate (Date.fromordinal
                                       (Date.toordinal anchored
                                        + (WEEK_LENGTH
                                           - Date.weekday anchored)))))
          else inr None
      end
  end.
Proof.
  unfold birthday_ok, AddressBook.upcoming, qualifies, delta_days.
  destruct (Record.birthday user) as [b|]; [|reflexivity].
  intros V. unfold Birthday_str. rewrite (strptime_strftime _ V).
  destruct (Date.replace_year _ _) as [e|anchored] eqn:R; [reflexivity|].
  destruct ((0 <=? _) && (_ <? 7)); cbv [negb]; [|reflexivity].
  destruct (Z.ltb_spec (Date.weekday anchored) WEEKDAYS_LENGTH) as [W|W];
    [reflexivity|].
  apply replace_year_inv in R. destruct R as [_ Va].
  destruct (add_days_weekend anchored Va W) as (monday & A & _).
  rewrite A. unfold Date.add_days in A.
  destruct (_ && _); [|discriminate]. congruence.
Qed.

Lemma upcoming_entry (current_date : Date.t) (user : Record.t)
      (entry : Record.t * congratulation) :
  birthday_ok user ->
  AddressBook.upcoming current_date user = inr (Some entry) ->
  fst entry = user /\ qualifies current_date user = true.
Proof.
  intros V. rewrite (upcoming_eq _ _ V).
  destruct (Record.birthday user); [|discriminate].
  destruct (Date.replace_year _ _); [discriminate|].
  destruct (qualifies current_date user); [|discriminate].
  destruct (_ <? _); intros [= <-]; auto.
Qed.

Lemma upcoming_none (current_date : Date.t) (user : Record.t) :
  birthday_ok user ->
  AddressBook.upcoming current_date user = inr None ->
  qualifies current_date user = false.
Proof.
  intros V. rewrite (upcoming_eq _ _ V). unfold qualifies, delta_days.
  destruct (Record.birthday user); [|reflexivity].
  destruct (Date.replace_year _ _); [discriminate|].
  destruct ((0 <=? _) && (_ <? 7)); [|reflexivity].
  destruct (_ <? _); discriminate.
Qed.

(** What the loop has appended when it ends without an exception. *)
Lemma loop_entries (current_date : Date.t) (users : list Record.t) :
  forall acc l,
    (forall user, In user users -> birthday_ok user) ->
    AddressBook.users_for_congratulation current_date users acc = inr l ->
    exists entries,
      l = (acc ++ entries)%list
      /\ (forall entry, In entry entries ->
             In (fst entry) users
             /\ AddressBook.upcoming current_date (fst entry)
                = inr (Some entry))
      /\ (forall user, In user users ->
             qualifies current_date user = true ->
             exists c, In (user, c) entries)
      /\ (forall user, In user users ->
             exists r, AddressBook.upcoming current_date user = inr r).
Proof.
  induction users as [|u users IH]; intros acc l V H.
  - cbn in H. injection H as <-. exists []. rewrite app_nil_r.
    split; [reflexivity|]. split; [|split]; intros ? [].
  - cbn [AddressBook.users_for_congratulation] in H.
    assert (Vu : birthday_ok u) by (apply V; left; reflexivity).
    assert (V' : forall user, In user users -> birthday_ok user)
      by (intros; apply V; right; assumption).
    destruct (AddressBook.upcoming current_date u) as [e|[entry|]] eqn:U;
      [discriminate| |].
    + destruct (IH _ _ V' H) as (entries & -> & S & C & T).
      destruct (upcoming_entry _ _ _ Vu U) as [F Q].
      exists (entry :: entries). rewrite <- app_assoc. split; [reflexivity|].
      split; [|split].
      * intros entry' [<-|H0].
        -- split; [left; symmetry; exact F|now rewrite F].
        -- destruct (S _ H0). split; [right|]; assumption.
      * intros user [<-|Hu] Qu.
        -- exists (snd entry). left. destruct entry; cbn in *; congruence.
        -- destruct (C _ Hu Qu) as [c Hc]. exists c. right. exact Hc.
      * intros user [<-|Hu]; [eauto|now apply T].
    + destruct (IH _ _ V' H) as (entries & -> & S & C & T).
      exists entries. split; [reflexivity|]. split; [|split].
      * intros entry' H0. destruct (S _ H0). split; [right|]; assumption.
      * intros user [<-|Hu] Qu.
        -- rewrite (upcoming_none _ _ Vu U) in Qu. discriminate.
        -- now apply C.
      * intros user [<-|Hu]; [eauto|now apply T].
Qed.

(** The loop ends without an exception when every turn does. *)
Lemma loop_total (current_date : Date.t) (users : list Record.t) :
  forall acc,
    (forall user, In user users ->
        exists r, AddressBook.upcoming current_date user = inr r) ->
    exists l,
      AddressBook.users_for_congratulation current_date users acc = inr l.
Proof.
  induction users as [|u users IH]; intros acc T.
  - exists acc. reflexivity.
  - cbn [AddressBook.users_for_congratulation].
    destruct (T u (or_introl eq_refl)) as [[entry|] ->];
      apply IH; intros; apply T; right; assumption.
Qed.

(** The loop is left by the exception of the first turn that raises. *)
Lemma loop_raises (current_date : Date.t) (users : list Record.t) :
  forall acc user e,
    In user users ->
    AddressBook.upcoming current_date user = inl e ->
    exists e',
      AddressBook.users_for_congratulation current_date users acc = inl e'
      /\ exists user', In user' users
                       /\ AddressBook.upcoming current_date user' = inl e'.
Proof.
  induction users as [|u users IH]; intros acc user e Hin U; [destruct Hin|].
  cbn [AddressBook.users_for_congratulation].
  destruct (AddressBook.upcoming current_date u) as [e0|[entry|]] eqn:U0.
  - exists e0. split; [reflexivity|]. exists u. split; [left; reflexivity|exact U0].
  - destruct Hin as [<-|Hin]; [congruence|].
    destruct (IH (acc ++ [entry])%list _ _ Hin U) as (e' & -> & u' & Hu' & U').
    exists e'. split; [reflexivity|]. exists u'. split; [right|]; assumption.
  - destruct Hin as [<-|Hin]; [congruence|].
    destruct (IH acc _ _ Hin U) as (e' & -> & u' & Hu' & U').
    exists e'. split; [reflexivity|]. exists u'. split; [right|]; assumption.
Qed.

(** ** [get_upcoming_birthdays] *)

Lemma get_upcoming_birthdays_returns (current_date : Date.t) (w : World)
      (l : list (Record.t * congratulation)) :
  AddressBook.users_for_congratulation current_date (AddressBook.users w) []
  = inr l ->
  AddressBook.get_upcoming_birthdays current_date w
  = (inr match l with
         | [] => None
         | _ => Some (join nl (map AddressBook.line l))
         end, w, []).
Proof.
  intros H. unfold AddressBook.get_upcoming_birthdays, try_except, bind, get,
              lift. rewrite H. destruct l; reflexivity.
Qed.

Lemma get_upcoming_birthdays_swallows (current_date : Date.t) (w : World)
      (e : exn) :
  AddressBook.users_for_congratulation current_date (AddressBook.users w) []
  = inl e ->
  Exn.issubclass (Exn.cls e) Exn.Exception = true ->
  AddressBook.get_upcoming_birthdays current_date w
  = (inr None, w, [Exn.msg e]).
Proof.
  intros H S. unfold AddressBook.get_upcoming_birthdays, try_except, bind, get,
                lift. rewrite H. cbn [find_handler]. rewrite S. reflexivity.
Qed.

(** A turn of the loop on a record whose birthday [Birthday] built
    raises nothing but the [ValueError] of [replace]. *)
Lemma upcoming_error (current_date : Date.t) (user : Record.t) (e : exn) :
  birthday_ok user ->
  AddressBook.upcoming current_date user = inl e ->
  Exn.cls e = Exn.ValueError
  /\ exists b, Record.birthday user = Some b
               /\ Date.replace_year (birthday_date b) (Date.year current_date)
                  = inl e.
Proof.
  intros V. rewrite (upcoming_eq _ _ V).
  destruct (Record.birthday user) as [b|]; [|discriminate].
  destruct (Date.replace_year _ _) as [e'|a] eqn:R.
  - intros [= ->]. split; [exact (new_error _ _ _ _ R)|eauto].
  - destruct (qualifies _ _); [destruct (_ <? _)|]; discriminate.
Qed.

Lemma qualifies_window (current_date : Date.t) (user : Record.t)
      (b : Birthday_t) (delta : Z) :
  Record.birthday user = Some b ->
  delta_days current_date b = Some delta ->
  qualifies current_date user = true <-> 0 <= delta < 7.
Proof.
  intros B D. unfold qualifies. rewrite B, D.
  rewrite andb_true_iff, Z.leb_le, Z.ltb_lt. tauto.
Qed.

(** C1, the claim as it stands fails: beside a contact born on 29
    February, in a year that is not leap, a contact whose birthday is
    today is not included; the query returns nothing at all. *)
Lemma window_fails_beside_29_february :
  let today := Date.mk 2025 6 10 in
  let w := session today ["add Alice 1234567890";
                          "add-birthday Alice 10.06.1990";
                          "add Bob 0987654321";
                          "add-birthday Bob 29.02.2024"] in
  let alice := Record.mk "Alice" [mkPhone "1234567890"]
                         (Some (mkBirthday (Date.mk 1990 6 10))) in
  In alice (AddressBook.users w)
  /\ delta_days today (mkBirthday (Date.mk 1990 6 10)) = Some 0
  /\ result (AddressBook.get_upcoming_birthdays today w) = inr None.
Proof. cbv zeta. repeat split. vm_compute. auto. Qed.

(** C1, amended: when the years of the birthdays of the book and the
    current year have four digits (1000 or later, the years whose text
    line 131 reads back on every platform) and every birthday of the
    book can be re-anchored onto the current year (no 29 February while
    the current year is not leap), [get_upcoming_birthdays] returns the
    lines of the contacts it includes, and it includes a contact with a
    birthday set if and only if [delta_days], the days from today to the
    birthday re-anchored onto the current year, is in the range [0, 7):
    today to 6 days ahead qualify; 7 days or more ahead, and any day
    before today, do not, and nothing wraps around to the next year. *)
Theorem upcoming_window (current_date : Date.t) (w : World) :
  birthdays_valid w ->
  four_digit_years w ->
  1000 <= Date.year current_date ->
  (forall user b,
      In user (AddressBook.users w) -> Record.birthday user = Some b ->
      delta_days current_date b <> None) ->
  exists entries,
    AddressBook.users_for_congratulation current_date (AddressBook.users w) []
    = inr entries
    /\ AddressBook.get_upcoming_birthdays current_date w
       = (inr match entries with
              | [] => None
              | _ => Some (join nl (map AddressBook.line entries))
              end, w, [])
    /\ forall user b delta,
         In user (AddressBook.users w) ->
         Record.birthday user = Some b ->
         delta_days current_date b = Some delta ->
         ((exists c, In (user, c) entries) <-> 0 <= delta < 7).
Proof.
  intros V _ _ A.
  assert (T : forall user, In user (AddressBook.users w) ->
                exists r, AddressBook.upcoming current_date user = inr r).
  { intros user Hu. rewrite (upcoming_eq _ _ (V _ Hu)).
    destruct (Record.birthday user) as [b|] eqn:B; [|eauto].
    specialize (A user b Hu B). unfold delta_days in A.
    destruct (Date.replace_year _ _); [congruence|].
    destruct (qualifies _ _); [destruct (_ <? _)|]; eauto. }
  destruct (loop_total current_date _ [] T) as [entries L].
  exists entries. split; [exact L|].
  split; [now apply get_upcoming_birthdays_returns|].
  destruct (loop_entries current_date _ [] _ V L) as (es & E & S & C & _).
  cbn [app] in E. subst es.
  intros user b delta Hu B D.
  rewrite <- (qualifies_window current_date user b delta B D).
  split.
  - intros [c Hc]. destruct (S _ Hc) as [Hin U]. cbn [fst] in *.
    exact (proj2 (upcoming_entry _ _ _ (V _ Hu) U)).
  - now apply C.
Qed.

Lemma upcoming_window_witness :
  let today := Date.mk 2024 6 10 in
  let w := session today ["add Alice 1234567890";
                          "add-birthday Alice 10.06.1990";
                          "add Bob 0987654321";
                          "add-birthday Bob 16.06.1985";
                          "add Carol 5555555555";
                          "add-birthday Carol 17.06.1985";
                          "add Dave 6666666666";
                          "add-birthday Dave 09.06.1985"] in
  exists entries,
    AddressBook.users_for_congratulation today (AddressBook.users w) []
    = inr entries
    /\ map (fun entry => Record.name (fst entry)) entries = ["Alice"; "Bob"].
Proof.
  intros today w.
  destruct (upcoming_window today w) as (entries & L & _ & _).
  - intros user H. vm_compute in H.
    repeat (destruct H as [<-|H]; [reflexivity|]). destruct H.
  - intros user b H. vm_compute in H.
    repeat (destruct H as [<-|H]; [intros [= <-]; vm_compute; discriminate|]).
    destruct H.
  - vm_compute. discriminate.
  - intros user b H. vm_compute in H.
    repeat (destruct H as [<-|H]; [intros [= <-]; discriminate|]).
    destruct H.
  - exists entries. split; [exact L|].
    vm_compute in L. injection L as <-. reflexivity.
Defined.

(** C2: the congratulation date of a contact that the query includes is
    its anchored date itself (its DD.MM.YYYY text) when that date is a
    Monday to a Friday, and the anchored date plus (7 - weekday) days,
    which is the Monday that follows, when it is a Saturday or a
    Sunday. *)
Theorem congratulation_date (current_date : Date.t) (w : World)
        (entries : list (Record.t * congratulation))
        (entry : Record.t * congratulation) :
  birthdays_valid w ->
  AddressBook.users_for_congratulation current_date (AddressBook.users w) []
  = inr entries ->
  In entry entries ->
  exists b anchored,
    In (fst entry) (AddressBook.users w)
    /\ Record.birthday (fst entry) = Some b
    /\ Date.replace_year (birthday_date b) (Date.year current_date)
       = inr anchored
    /\ (Date.weekday anchored < 5 ->
        snd entry = CongText (Date.strftime anchored)
        /\ Date.strptime (Date.strftime anchored) = inr anchored)
    /\ (5 <= Date.weekday anchored ->
        exists monday,
          snd entry = CongDate monday
          /\ Date.add_days anchored (7 - Date.weekday anchored) = inr monday
          /\ Date.toordinal monday
             = Date.toordinal anchored + (7 - Date.weekday anchored)
          /\ Date.weekday monday = 0).
Proof.
  intros V L Hin.
  destruct (loop_entries current_date _ [] _ V L) as (es & E & S & _).
  cbn [app] in E. subst es. destruct (S _ Hin) as [Hu U].
  rewrite (upcoming_eq _ _ (V _ Hu)) in U.
  destruct (Record.birthday (fst entry)) as [b|]; [|discriminate].
  destruct (Date.replace_year _ _) as [e|anchored] eqn:R; [discriminate|].
  exists b, anchored. split; [exact Hu|]. split; [reflexivity|].
  split; [exact R|].
  destruct (replace_year_inv _ _ _ R) as [_ Va].
  destruct (qualifies _ _); [|discriminate].
  unfold WEEKDAYS_LENGTH in U.
  destruct entry as [u c]. cbv [fst snd] in *.
  destruct (Z.ltb_spec (Date.weekday anchored) 5) as [W|W].
  - assert (c = CongText (Date.strftime anchored)) as -> by congruence.
    split; [|lia]. intros _.
    split; [reflexivity|now apply strptime_strftime].
  - split; [lia|]. intros _.
    destruct (add_days_weekend anchored Va W) as (monday & A & O & M & _).
    unfold WEEK_LENGTH in *. exists monday.
    split; [|auto]. unfold Date.add_days in A. cbv zeta in A.
    destruct (_ && _); [|discriminate]. congruence.
Qed.

(** The example of the specification: on Monday 2024-06-10 a birthday
    anchored to Saturday 2024-06-15 qualifies and is congratulated on
    Monday 2024-06-17. *)
Lemma congratulation_date_witness :
  let today := Date.mk 2024 6 10 in
  let w := session today ["add Alice 1234567890";
                          "add-birthday Alice 15.06.1990"] in
  let alice := Record.mk "Alice" [mkPhone "1234567890"]
                         (Some (mkBirthday (Date.mk 1990 6 15))) in
  Date.weekday today = 0
  /\ Date.weekday (Date.mk 2024 6 15) = 5
  /\ delta_days today (mkBirthday (Date.mk 1990 6 15)) = Some 5
  /\ AddressBook.users_for_congratulation today (AddressBook.users w) []
     = inr [(alice, CongDate (Date.mk 2024 6 17))]
  /\ result (AddressBook.get_upcoming_birthdays today w)
     = inr (Some "Contact name: Alice, Phones: 1234567890, Birthday: 15.06.1990, Congratulation date: 2024-06-17")
  /\ exists monday,
       CongDate (Date.mk 2024 6 17) = CongDate monday
       /\ Date.add_days (Date.mk 2024 6 15) (7 - 5) = inr monday
       /\ Date.weekday monday = 0.
Proof.
  intros today w alice.
  assert (L : AddressBook.users_for_congratulation
                today (AddressBook.users w) []
              = inr [(alice, CongDate (Date.mk 2024 6 17))])
    by (vm_compute; reflexivity).
  repeat split; try exact L.
  destruct (congratulation_date
              today w [(alice, CongDate (Date.mk 2024 6 17))]
              (alice, CongDate (Date.mk 2024 6 17)))
    as (b & anchored & _ & B & R & _ & Weekend).
  - intros user H. vm_compute in H.
    repeat (destruct H as [<-|H]; [reflexivity|]). destruct H.
  - exact L.
  - left. reflexivity.
  - cbn [fst Record.birthday alice] in B. injection B as <-.
    vm_compute in R. injection R as <-.
    destruct Weekend as (monday & C & A & _ & M); [vm_compute; discriminate|].
    exists monday. auto.
Defined.

Lemma birthdays_eq (current_date : Date.t) (w : World)
      (r : option string) (w' : World) (o : list string) :
  AddressBook.get_upcoming_birthdays current_date w = (inr r, w', o) ->
  birthdays current_date w
  = (inr match r with
         | None => VStr "Upcoming birthdays not found."
         | Some text => VStr text
         end, w', o).
Proof.
  intros H. unfold birthdays, input_error, try_except, bind. rewrite H.
  destruct r; cbn; now rewrite app_nil_r.
Qed.

(** C3, the claim as it stands fails: beside a contact born on 29
    February, in a year that is not leap, the contact that qualifies is
    not returned; the query prints the error and returns nothing. *)
Lemma february_29_empties_the_query :
  let today := Date.mk 2025 6 10 in
  let w := session today ["add Bob 0987654321";
                          "add-birthday Bob 29.02.2000";
                          "add Carol 5555555555";
                          "add-birthday Carol 12.06.1985"] in
  let carol := Record.mk "Carol" [mkPhone "5555555555"]
                         (Some (mkBirthday (Date.mk 1985 6 12))) in
  In carol (AddressBook.users w)
  /\ qualifies today carol = true
  /\ AddressBook.get_upcoming_birthdays today w
     = (inr None, w, ["day is out of range for month"])
  /\ result (birthdays today w) = inr (VStr "Upcoming birthdays not found.").
Proof. cbv zeta. repeat split. vm_compute. auto. Qed.

(** C3, amended: when some contact's birthday is 29 February and the
    current year is not a leap year, the failure to build the anchored
    date ends the whole query, whatever the other contacts are:
    [get_upcoming_birthdays] prints the message of one error, returns
    the absent result and leaves the book as it is, and the handler
    [birthdays] answers that no upcoming birthday was found.  When the
    years of the birthdays of the book have four digits, the message is
    the one of the date that cannot be built. *)
Theorem february_29_ends_the_query (current_date : Date.t) (w : World) :
  Date.valid current_date = true ->
  birthdays_valid w ->
  Date._is_leap (Date.year current_date) = false ->
  (exists user b,
      In user (AddressBook.users w) /\ Record.birthday user = Some b
      /\ Date.month (birthday_date b) = 2 /\ Date.day (birthday_date b) = 29) ->
  exists message,
    AddressBook.get_upcoming_birthdays current_date w
    = (inr None, w, [message])
    /\ birthdays current_date w
       = (inr (VStr "Upcoming birthdays not found."), w, [message])
    /\ (four_digit_years w -> message = "day is out of range for month").
Proof.
  intros Vt V NL (user & b & Hu & B & Mo & Da).
  exists "day is out of range for month".
  assert (G : AddressBook.get_upcoming_birthdays current_date w
              = (inr None, w, ["day is out of range for month"]));
    [|split; [exact G|split; [exact (birthdays_eq _ _ _ _ _ G)|reflexivity]]].
  destruct (valid_bounds _ Vt) as (Hy & _).
  assert (F : forall x, Date.valid x = true ->
                forall e, Date.replace_year x (Date.year current_date) = inl e ->
                          e = Exn.raise_ Exn.ValueError
                                         "day is out of range for month").
  { intros x Vx e R. pose proof (replace_year_valid x _ Vx Hy) as P.
    destruct (_ && _); congruence. }
  assert (U : AddressBook.upcoming current_date user
              = Raise Exn.ValueError "day is out of range for month").
  { rewrite (upcoming_eq _ _ (V _ Hu)), B.
    pose proof (V _ Hu) as Vb. unfold birthday_ok in Vb. rewrite B in Vb.
    pose proof (replace_year_valid _ _ Vb Hy) as P.
    rewrite Mo, Da, NL in P. cbn in P. now rewrite P. }
  destruct (loop_raises current_date _ [] _ _ Hu U)
    as (e' & L & user' & Hu' & U').
  destruct (upcoming_error _ _ _ (V _ Hu') U') as (_ & b' & B' & R').
  pose proof (V _ Hu') as Vb'. unfold birthday_ok in Vb'. rewrite B' in Vb'.
  rewrite (F _ Vb' _ R') in L.
  now rewrite (get_upcoming_birthdays_swallows _ _ _ L).
Qed.

Lemma february_29_ends_the_query_witness :
  let today := Date.mk 2025 3 1 in
  let w := session today ["add Ann 1234567890";
                          "add-birthday Ann 03.03.1991";
                          "add Bob 0987654321";
                          "add-birthday Bob 29.02.2024"] in
  AddressBook.get_upcoming_birthdays today w
  = (inr None, w, ["day is out of range for month"])
  /\ birthdays today w
     = (inr (VStr "Upcoming birthdays not found."), w,
        ["day is out of range for month"]).
Proof.
  intros today w.
  destruct (february_29_ends_the_query today w) as (message & G & B & M).
  - reflexivity.
  - intros user H. vm_compute in H.
    repeat (destruct H as [<-|H]; [reflexivity|]). destruct H.
  - reflexivity.
  - exists (Record.mk "Bob" [mkPhone "0987654321"]
                      (Some (mkBirthday (Date.mk 2024 2 29)))),
      (mkBirthday (Date.mk 2024 2 29)).
    repeat split. vm_compute. auto.
  - assert (F : four_digit_years w).
    { intros user b H. vm_compute in H.
      repeat (destruct H as [<-|H];
              [intros [= <-]; vm_compute; discriminate|]).
      destruct H. }
    rewrite (M F) in G, B. split; [exact G|exact B].
Defined.

(** C7: whenever no contact qualifies, an empty book and a book without
    any birthday included, [get_upcoming_birthdays] returns [None], the
    absent result, which is not a text nor a list, and the handler of
    [birthdays] returns the message that none was found. *)
Theorem no_upcoming_birthday (current_date : Date.t) (w : World) :
  birthdays_valid w ->
  (forall user, In user (AddressBook.users w) ->
                qualifies current_date user = false) ->
  result (AddressBook.get_upcoming_birthdays current_date w) = inr None
  /\ state (AddressBook.get_upcoming_birthdays current_date w) = w
  /\ result (birthdays current_date w)
     = inr (VStr "Upcoming birthdays not found.")
  /\ state (birthdays current_date w) = w.
Proof.
  intros V Q.
  assert (exists o, AddressBook.get_upcoming_birthdays current_date w
                    = (inr None, w, o)) as [o G].
  { destruct (AddressBook.users_for_congratulation
                current_date (AddressBook.users w) []) as [e|l] eqn:L.
    - exists [Exn.msg e]. apply get_upcoming_birthdays_swallows; [exact L|].
      assert (exists user, In user (AddressBook.users w)
                           /\ AddressBook.upcoming current_date user = inl e)
        as (user & Hu & U).
      { clear - L. revert L. generalize (@nil (Record.t * congratulation)).
        induction (AddressBook.users w) as [|u us IH]; intros acc L;
          [discriminate|].
        cbn [AddressBook.users_for_congratulation] in L.
        destruct (AddressBook.upcoming current_date u) as [e0|[x|]] eqn:U.
        - exists u. split; [left; reflexivity|congruence].
        - destruct (IH _ L) as (user & ? & ?). exists user. split; [right|]; auto.
        - destruct (IH _ L) as (user & ? & ?). exists user. split; [right|]; auto. }
      destruct (upcoming_error _ _ _ (V _ Hu) U) as [-> _]. reflexivity.
    - exists []. rewrite (get_upcoming_birthdays_returns _ _ _ L).
      destruct (loop_entries current_date _ [] _ V L) as (es & E & S & _).
      cbn [app] in E. subst es. destruct l as [|entry l]; [reflexivity|].
      destruct (S entry (or_introl eq_refl)) as [Hu U].
      destruct (upcoming_entry _ _ _ (V _ Hu) U) as [_ Qe].
      rewrite (Q _ Hu) in Qe. discriminate. }
  rewrite (birthdays_eq _ _ _ _ _ G), G. repeat split.
Qed.

Lemma no_upcoming_birthday_witness :
  let today := Date.mk 2024 6 10 in
  (result (AddressBook.get_upcoming_birthdays today empty_world) = inr None
   /\ result (birthdays today empty_world)
      = inr (VStr "Upcoming birthdays not found."))
  /\ let w := session today ["add Alice 1234567890"; "add Bob 0987654321";
                             "add-birthday Bob 17.06.1985"] in
     result (AddressBook.get_upcoming_birthdays today w) = inr None
     /\ result (birthdays today w) = inr (VStr "Upcoming birthdays not found.").
Proof.
  intros today. split.
  - destruct (no_upcoming_birthday today empty_world) as (G & _ & B & _).
    + intros user [].
    + intros user [].
    + split; assumption.
  - intros w. destruct (no_upcoming_birthday today w) as (G & _ & B & _).
    + intros user H. vm_compute in H.
      repeat (destruct H as [<-|H]; [reflexivity|]). destruct H.
    + intros user H. vm_compute in H.
      repeat (destruct H as [<-|H]; [reflexivity|]). destruct H.
    + split; assumption.
Defined.

(** ** The handlers *)

(** C8, where the code departs from the claim: without an argument the
    handlers of [phone], [show-birthday] and [delete] return the
    [IndexError] itself, which [main] prints as the text of the
    interpreter, and not the message that the last clause of
    [input_error] holds for it: that clause comes after the clause of
    [Exception] and is never reached.  With too few arguments the
    handler of [add] does return a message of its own. *)
Theorem missing_argument_is_not_reported (current_date : Date.t) (w : World) :
  let e := Exn.raise_ Exn.IndexError "list index out of range" in
  show_phone [] w = (inr (VExn e), w, [])
  /\ show_birthday [] w = (inr (VExn e), w, [])
  /\ delete_contact [] w = (inr (VExn e), w, [])
  /\ main_step current_date "phone" w
     = (inr true, w, ["list index out of range"])
  /\ VExn e <> VStr "Give me both name and phone number."
  /\ add_contact ["Bob"] w
     = (inr (VStr "Enter the argument for the command."), w, []).
Proof. cbv zeta. repeat split. discriminate. Qed.

(** ** A program logic for the computations on the store *)

Lemma hoare_conseq {A} (P P' : World -> Prop) (m : M World A)
      (Q Q' : exn + A -> World -> Prop) :
  hoare P' m Q' -> (forall w, P w -> P' w) ->
  (forall r w, Q' r w -> Q r w) -> hoare P m Q.
Proof. unfold hoare. auto. Qed.

Lemma hoare_ret {A} (P : World -> Prop) (a : A) :
  hoare P (ret a) (fun r w => r = inr a /\ P w).
Proof. intros w H. cbn. auto. Qed.

Lemma hoare_lift {A} (P : World -> Prop) (x : exn + A) :
  hoare P (lift x) (fun r w => r = x /\ P w).
Proof. intros w H. cbn. auto. Qed.

Lemma hoare_get (P : World -> Prop) :
  hoare P get (fun r w => r = inr w /\ P w).
Proof. intros w H. cbn. auto. Qed.

Lemma hoare_print (P : World -> Prop) (line : string) :
  hoare P (print line) (fun r w => r = inr tt /\ P w).
Proof. intros w H. cbn. auto. Qed.

Lemma hoare_bind {A B} (P : World -> Prop) (m : M World A) (f : A -> M World B)
      (Q : exn + A -> World -> Prop) (R : exn + B -> World -> Prop) :
  hoare P m Q ->
  (forall e w, Q (inl e) w -> R (inl e) w) ->
  (forall a, hoare (Q (inr a)) (f a) R) ->
  hoare P (bind m f) R.
Proof.
  unfold hoare, bind, result, state. intros Hm He Hf w HP.
  specialize (Hm w HP). destruct (m w) as [[[e|a] w1] o1]; cbn in *.
  - now apply He.
  - specialize (Hf a w1 Hm). destruct (f a w1) as [[r2 w2] o2]. exact Hf.
Qed.

Lemma hoare_try_except {A} (P : World -> Prop) (m : M World A)
      (handlers : list (Exn.class * (exn -> M World A)))
      (Q R : exn + A -> World -> Prop) :
  hoare P m Q ->
  (forall a w, Q (inr a) w -> R (inr a) w) ->
  (forall e, match find_handler e handlers with
             | Some h => hoare (Q (inl e)) (h e) R
             | None => forall w, Q (inl e) w -> R (inl e) w
             end) ->
  hoare P (try_except m handlers) R.
Proof.
  unfold hoare, try_except, result, state. intros Hm Ha He w HP.
  specialize (Hm w HP). destruct (m w) as [[[e|a] w1] o1]; cbn in *.
  - specialize (He e). destruct (find_handler e handlers) as [h|].
    + specialize (He w1 Hm). destruct (h e w1) as [[r2 w2] o2]. exact He.
    + now apply He.
  - now apply Ha.
Qed.

(** The decorator changes no state: what holds after the function
    holds after the decorated function. *)
Lemma hoare_input_error (P I : World -> Prop) (func : M World value) :
  hoare P func (fun _ w => I w) ->
  hoare P (input_error func) (fun _ w => I w).
Proof.
  intros H. unfold input_error.
  apply hoare_try_except with (Q := fun _ w => I w); [exact H|auto|].
  intros e. cbn [find_handler].
  repeat match goal with
         | |- context [if ?b then _ else _] => destruct b
         end; try (intros w Hw; exact Hw); auto.
Qed.

(** ** The [dict] of the book *)

Lemma dict_set_In (key : string) (v : ref) (d : list (string * ref)) :
  forall k r, In (k, r) (Dict.set key v d) -> (k, r) = (key, v) \/ In (k, r) d.
Proof.
  induction d as [|[k0 v0] d IH]; intros k r H; cbn [Dict.set] in H.
  - destruct H as [H|[]]. left. now symmetry.
  - destruct (String.eqb_spec k0 key) as [->|NE].
    + destruct H as [H|H]; [left; now symmetry|right; right; exact H].
    + destruct H as [H|H]; [right; left; exact H|].
      destruct (IH _ _ H); [left|right; right]; assumption.
Qed.

Lemma dict_set_keys (key : string) (v : ref) (d : list (string * ref)) :
  forall k, In k (map fst (Dict.set key v d)) -> k = key \/ In k (map fst d).
Proof.
  intros k H. apply in_map_iff in H. destruct H as ([k' r] & <- & H).
  destruct (dict_set_In _ _ _ _ _ H) as [E|E].
  - left. now injection E.
  - right. apply in_map_iff. exists (k', r). auto.
Qed.

Lemma dict_set_NoDup (key : string) (v : ref) (d : list (string * ref)) :
  NoDup (map fst d) -> NoDup (map fst (Dict.set key v d)).
Proof.
  induction d as [|[k0 v0] d IH]; intros H; cbn [Dict.set].
  - cbn. constructor; [intros []|constructor].
  - cbn [map fst] in H. inversion H as [|? ? Hnot Hrest]; subst.
    destruct (String.eqb_spec k0 key) as [->|NE]; cbn [map fst].
    + constructor; assumption.
    + constructor; [|now apply IH].
      intros Hin. destruct (dict_set_keys _ _ _ _ Hin); [congruence|auto].
Qed.

Lemma dict_del_In (key : string) (d : list (string * ref)) :
  forall k r, In (k, r) (Dict.del key d) -> In (k, r) d.
Proof.
  induction d as [|[k0 v0] d IH]; intros k r H; cbn [Dict.del] in H; [exact H|].
  destruct (String.eqb k0 key); [right; exact H|].
  destruct H as [H|H]; [left; exact H|right; now apply IH].
Qed.

Lemma dict_del_NoDup (key : string) (d : list (string * ref)) :
  NoDup (map fst d) -> NoDup (map fst (Dict.del key d)).
Proof.
  induction d as [|[k0 v0] d IH]; intros H; cbn [Dict.del]; [exact H|].
  cbn [map fst] in H. inversion H as [|? ? Hnot Hrest]; subst.
  destruct (String.eqb k0 key); [exact Hrest|]. cbn [map fst].
  constructor; [|now apply IH].
  intros Hin. apply Hnot. apply in_map_iff in Hin.
  destruct Hin as ([k r] & <- & Hin). apply in_map_iff. exists (k, r).
  split; [reflexivity|]. now apply dict_del_In in Hin.
Qed.

(** ** The invariant is kept *)

Lemma inv_empty : inv empty_world.
Proof.
  split; [constructor|]. split; [intros key r []|]. intros r. exact I.
Qed.

Lemma add_phone_keeps (n : string) : keeps_record (Record.add_phone n).
Proof.
  intros self. unfold Record.add_phone, bind, lift, get, put, state.
  destruct (Phone n); cbn; auto.
Qed.

Lemma remove_phone_keeps (n : string) : keeps_record (Record.remove_phone n).
Proof.
  intros self. unfold Record.remove_phone, bind, get, put, print, state.
  cbn. destruct (Record.first_with_value _ _); cbn; auto.
Qed.

Lemma keeps_record_bind {A B} (m : M Record.t A) (f : A -> M Record.t B) :
  keeps_record m -> (forall a, keeps_record (f a)) -> keeps_record (bind m f).
Proof.
  intros Km Kf self. unfold bind, state.
  destruct (Km self) as [N1 B1]. unfold state in N1, B1.
  destruct (m self) as [[[e|a] s1] o1]; cbn [fst snd] in *; [auto|].
  destruct (Kf a s1) as [N2 B2]. unfold state in N2, B2.
  destruct (f a s1) as [[r2 s2] o2]; cbn [fst snd] in *.
  split; [congruence|auto].
Qed.

Lemma edit_phone_keeps (a b : string) : keeps_record (Record.edit_phone a b).
Proof.
  apply keeps_record_bind; [apply remove_phone_keeps|].
  intros _. apply add_phone_keeps.
Qed.

Lemma add_birthday_keeps (s : string) : keeps_record (Record.add_birthday s).
Proof.
  intros self. unfold Record.add_birthday, bind, lift, get, put, state.
  destruct (Birthday s) as [e|b] eqn:B; cbn; auto.
  split; [reflexivity|]. intros _. unfold birthday_ok. cbn.
  eapply Birthday_valid; eauto.
Qed.

Lemma hoare_on_record {A} (r : ref) (m : M Record.t A) :
  keeps_record m -> hoare inv (on_record r m) (fun _ w => inv w).
Proof.
  intros K w (ND & E & B). unfold on_record, state.
  destruct (K (heap w r)) as [N Bk]. unfold state in *.
  destruct (m (heap w r)) as [[res self'] o]. cbn in *.
  unfold inv. cbn [heap next data]. split; [exact ND|]. split.
  - intros key r' H. destruct (E _ _ H) as [L Nm]. split; [exact L|].
    cbn [heap]. unfold heap_set.
    destruct (Nat.eqb_spec r' r) as [->|_]; congruence.
  - intros r'. cbn [heap]. unfold heap_set.
    destruct (Nat.eqb_spec r' r) as [->|_]; [apply Bk|]; apply B.
Qed.

Lemma hoare_alloc (name : string) :
  hoare inv (alloc name)
        (fun res w => inv w /\ exists r, res = inr r /\ (r < next w)%nat).
Proof.
  intros w (ND & E & B). cbn. unfold inv. cbn [heap next data].
  split; [split; [exact ND|split]|].
  - intros key r H. destruct (E _ _ H) as [L Nm]. split; [lia|].
    cbn [heap]. unfold heap_set.
    destruct (Nat.eqb_spec r (next w)) as [->|_]; [lia|exact Nm].
  - intros r. cbn [heap]. unfold heap_set.
    destruct (Nat.eqb_spec r (next w)) as [->|_]; [exact I|apply B].
  - exists (next w). split; [reflexivity|lia].
Qed.

Lemma hoare_add_record (r : ref) :
  hoare (fun w => inv w /\ (r < next w)%nat) (AddressBook.add_record r)
        (fun _ w => inv w).
Proof.
  intros w ((ND & E & B) & L). cbn. unfold inv. cbn [heap next data].
  split; [now apply dict_set_NoDup|].
  split; [|exact B]. intros key r' H.
  destruct (dict_set_In _ _ _ _ _ H) as [[= -> ->]|H']; [auto|now apply E].
Qed.

Lemma hoare_find (name : string) :
  hoare inv (AddressBook.find name) (fun _ w => inv w).
Proof. intros w H. exact H. Qed.

Lemma hoare_delete (name : string) :
  hoare inv (AddressBook.delete name) (fun _ w => inv w).
Proof.
  intros w (ND & E & B). unfold AddressBook.delete, bind, get, state. cbn.
  destruct (Dict.get name (data w)); cbn; [|exact (conj ND (conj E B))].
  unfold inv. cbn [heap next data].
  split; [now apply dict_del_NoDup|]. split; [|exact B].
  intros key r' H. apply E. now apply dict_del_In in H.
Qed.

Lemma hoare_weaken_post {A} (P I : World -> Prop) (m : M World A)
      (Q : exn + A -> World -> Prop) :
  hoare P m Q -> (forall r w, Q r w -> I w) -> hoare P m (fun _ w => I w).
Proof. unfold hoare. eauto. Qed.

(** A computation that keeps the invariant, followed by one that does. *)
Lemma hoare_seq {A B} (m : M World A) (f : A -> M World B) :
  hoare inv m (fun _ w => inv w) ->
  (forall a, hoare inv (f a) (fun _ w => inv w)) ->
  hoare inv (bind m f) (fun _ w => inv w).
Proof.
  intros Hm Hf. eapply hoare_bind; [exact Hm|auto|exact Hf].
Qed.

Lemma hoare_inv_ret {A} (a : A) : hoare inv (ret a) (fun _ w => inv w).
Proof. intros w H. exact H. Qed.

Lemma hoare_inv_lift {A} (x : exn + A) : hoare inv (lift x) (fun _ w => inv w).
Proof. intros w H. exact H. Qed.

Lemma hoare_inv_get : hoare inv get (fun _ w => inv w).
Proof. intros w H. exact H. Qed.

Lemma add_contact_keeps (args : list string) :
  hoare inv (add_contact args) (fun _ w => inv w).
Proof.
  unfold add_contact. apply hoare_input_error.
  apply hoare_seq; [apply hoare_inv_lift|]. intros [name phone].
  apply hoare_seq; [apply hoare_find|]. intros found.
  apply hoare_seq.
  - destruct found as [record|]; [apply hoare_inv_ret|].
    eapply hoare_bind; [apply hoare_alloc|intros e w [Hw _]; exact Hw|].
    intros record.
    eapply hoare_bind with (Q := fun _ w => inv w);
      [|auto|intros; apply hoare_inv_ret].
    eapply hoare_conseq; [apply (hoare_add_record record)| |auto].
    intros w (Hw & r & [= <-] & L). auto.
  - intros [record message].
    apply hoare_seq; [|intros; apply hoare_inv_ret].
    destruct (truthy phone); [|apply hoare_inv_ret].
    apply hoare_on_record, add_phone_keeps.
Qed.

Lemma change_contact_keeps (args : list string) :
  hoare inv (change_contact args) (fun _ w => inv w).
Proof.
  unfold change_contact. apply hoare_input_error.
  apply hoare_seq; [apply hoare_inv_lift|]. intros [[name a] b].
  apply hoare_seq; [apply hoare_find|]. intros [record|];
    [|apply hoare_inv_ret].
  apply hoare_seq; [|intros; apply hoare_inv_ret].
  apply hoare_on_record, edit_phone_keeps.
Qed.

Lemma add_birthday_handler_keeps (args : list string) :
  hoare inv (add_birthday args) (fun _ w => inv w).
Proof.
  unfold add_birthday. apply hoare_input_error.
  apply hoare_seq; [apply hoare_inv_lift|]. intros [name b].
  apply hoare_seq; [apply hoare_find|]. intros [record|];
    [|apply hoare_inv_ret].
  apply hoare_seq; [|intros; apply hoare_inv_ret].
  apply hoare_on_record, add_birthday_keeps.
Qed.

Lemma delete_contact_keeps (args : list string) :
  hoare inv (delete_contact args) (fun _ w => inv w).
Proof.
  unfold delete_contact. apply hoare_input_error.
  apply hoare_seq; [apply hoare_inv_lift|]. intros name.
  apply hoare_seq; [apply hoare_find|]. intros [record|];
    [|apply hoare_inv_ret].
  apply hoare_seq; [apply hoare_delete|intros; apply hoare_inv_ret].
Qed.

Lemma exec_keeps (o : op) (w : World) :
  inv w -> (forall r, op_ref o = Some r -> (r < next w)%nat) ->
  inv (exec o w).
Proof.
  intros Hw Hr. destruct o; cbn [exec].
  - exact (proj1 (hoare_alloc name w Hw)).
  - exact (hoare_on_record r _ (add_phone_keeps phone_number) w Hw).
  - exact (hoare_on_record r _ (remove_phone_keeps phone_number) w Hw).
  - exact (hoare_on_record r _ (edit_phone_keeps _ _) w Hw).
  - exact (hoare_on_record r _ (add_birthday_keeps birthday) w Hw).
  - apply (hoare_add_record r w). split; [exact Hw|]. now apply Hr.
  - exact (hoare_delete record_name w Hw).
  - exact (add_contact_keeps args w Hw).
  - exact (change_contact_keeps args w Hw).
  - exact (add_birthday_handler_keeps args w Hw).
  - exact (delete_contact_keeps args w Hw).
Qed.

Lemma reachable_inv (w : World) : reachable w -> inv w.
Proof.
  induction 1 as [|w o _ IH Hr]; [exact inv_empty|now apply exec_keeps].
Qed.

(** Every birthday of a book that the operations have built came out of
    [Birthday]. *)
Lemma reachable_birthdays_valid (w : World) :
  reachable w -> birthdays_valid w.
Proof.
  intros H. destruct (reachable_inv w H) as (_ & _ & B).
  intros user Hu. unfold AddressBook.users in Hu.
  apply in_map_iff in Hu. destruct Hu as (kv & <- & _). apply B.
Qed.

(** C9: in every book reached from the empty book by the operations
    open to callers (the constructor and the mutators of [Record],
    [add_record], [delete] and the handlers), every stored record has
    for name the key that holds it, and no key is held twice. *)
Theorem name_is_key (w : World) :
  reachable w ->
  (forall key r, In (key, r) (data w) -> Record.name (heap w r) = key)
  /\ (forall key r, Dict.get key (data w) = Some r ->
                    Record.name (heap w r) = key)
  /\ NoDup (map fst (data w)).
Proof.
  intros H. destruct (reachable_inv w H) as (ND & E & _).
  split; [|split; [|exact ND]].
  - intros key r Hin. now apply E.
  - intros key r G. apply E. clear - G.
    induction (data w) as [|[k v] d IH]; [discriminate|]. cbn [Dict.get] in G.
    destruct (String.eqb_spec k key) as [->|_].
    + injection G as ->. left. reflexivity.
    + right. now apply IH.
Qed.

Lemma name_is_key_witness :
  let w := exec (OpAddBirthday ["Bob"; "29.02.2024"])
          (exec (OpAddRecord 1%nat)
          (exec (OpAddPhone 1%nat "0987654321")
          (exec (OpRecord "Bob")
          (exec (OpAddContact ["Alice"; "1234567890"]) empty_world)))) in
  map fst (data w) = ["Alice"; "Bob"]
  /\ forall key r, In (key, r) (data w) -> Record.name (heap w r) = key.
Proof.
  intros w. split; [reflexivity|].
  apply (name_is_key w). unfold w.
  repeat (apply reach_step; [|cbn; intros r [= <-]; cbn; lia
                                   || (cbn; intros r; discriminate)]).
  apply reach_empty.
Defined.

(** * Further properties of the code *)

(** ** [Phone] and the phones of a record *)

(** X1: of the texts whose characters are code points below 256,
    [Phone] accepts exactly the texts of ten ASCII digits, alone or
    followed by one final newline; it keeps the text as its value; every
    other text of such characters raises the one error of the class.
    (A digit of another script, which [\d] also matches, is a character
    from 256 on.) *)
Theorem Phone_accepts_exactly (s : string) :
  (forall p, Phone s = inr p
             <-> p = mkPhone s
                 /\ exists t, ten_ascii_digits t = true
                              /\ (s = t \/ s = (t ++ nl)%string))
  /\ (forall e, Phone s = inl e -> e = phone_error).
Proof.
  split; [|intros e; apply Phone_error].
  intros p. split.
  - intros H. split; [now apply Phone_value|]. eapply Phone_inv; eauto.
  - intros (-> & t & T & [->| ->]).
    + now apply Phone_ten_digits.
    + now apply Phone_ten_digits_newline.
Qed.

(** X2: [remove_phone] removes one phone, the first whose value is the
    number, and keeps the others in their order, duplicates of the
    number included; when no phone has the number it prints its
    diagnostic and leaves the record as it is.  It never raises. *)
Theorem remove_phone_removes_the_first (self : Record.t) (n : string) :
  ((forall p, In p (Record.phones self) -> phone_value p <> n) ->
   Record.remove_phone n self = (inr tt, self, ["Phone number not found."]))
  /\ (forall l1 p l2,
         Record.phones self = (l1 ++ p :: l2)%list ->
         (forall q, In q l1 -> phone_value q <> n) ->
         phone_value p = n ->
         Record.remove_phone n self
         = (inr tt,
            Record.mk (Record.name self) (l1 ++ l2) (Record.birthday self),
            [])).
Proof.
  unfold Record.remove_phone, bind, get, put, print. split.
  - intros Habs. now rewrite (first_with_value_none _ _ Habs).
  - intros l1 p l2 Hl Hbefore Hp.
    destruct (first_with_value_split n l1 l2 p Hbefore Hp) as [F R].
    rewrite Hl, F, Hp, R. reflexivity.
Qed.

(** X3: when the new number is not one [Phone] accepts, [edit_phone]
    raises the error of [Phone] after it has removed the old number:
    the record has lost the first phone equal to [old] and has gained
    nothing. *)
Theorem edit_phone_invalid_new_loses_old
        (self : Record.t) (old new : string) (e : exn) :
  Phone new = inl e ->
  forall l1 p l2,
    Record.phones self = (l1 ++ p :: l2)%list ->
    (forall q, In q l1 -> phone_value q <> old) ->
    phone_value p = old ->
    Record.edit_phone old new self
    = (inl phone_error,
       Record.mk (Record.name self) (l1 ++ l2) (Record.birthday self),
       []).
Proof.
  intros Hnew l1 p l2 Hl Hbefore Hp.
  pose proof (Phone_error _ _ Hnew) as ->.
  unfold Record.edit_phone, Record.remove_phone, Record.add_phone,
    bind, get, put, lift, print.
  destruct (first_with_value_split old l1 l2 p Hbefore Hp) as [F R].
  rewrite Hl, F, Hp, R, Hnew. reflexivity.
Qed.

Lemma edit_phone_invalid_new_witness :
  Record.edit_phone "1111111111" "12345"
                    (Record.mk "Alice" [mkPhone "1111111111";
                                        mkPhone "2222222222"] None)
  = (inl phone_error, Record.mk "Alice" [mkPhone "2222222222"] None, []).
Proof.
  apply (edit_phone_invalid_new_loses_old
           (Record.mk "Alice" [mkPhone "1111111111"; mkPhone "2222222222"]
                      None)
           "1111111111" "12345" phone_error eq_refl
           [] (mkPhone "1111111111") [mkPhone "2222222222"]).
  - reflexivity.
  - intros q [].
  - reflexivity.
Defined.

Lemma first_with_value_some (n : string) (l : list Phone_t) (p : Phone_t) :
  Record.first_with_value n l = Some p -> In p l /\ phone_value p = n.
Proof.
  unfold Record.first_with_value. intros H. apply find_some in H.
  destruct H as [Hin E]. split; [exact Hin|]. now apply String.eqb_eq.
Qed.

Lemma first_with_value_none_inv (n : string) (l : list Phone_t) :
  Record.first_with_value n l = None ->
  forall p, In p l -> phone_value p <> n.
Proof.
  unfold Record.first_with_value. intros H p Hin E.
  pose proof (find_none _ _ H p Hin) as F. cbv beta in F.
  apply String.eqb_neq in F. contradiction.
Qed.

(** The message of [find_phone] is no text that [Phone] accepts. *)
Lemma sentinel_is_no_phone (p : Phone_t) :
  Phone "Phone number not found." <> inr p.
Proof. discriminate. Qed.

(** X4: on a record whose phones [Phone] built, [find_phone] answers
    the message "Phone number not found." exactly when no phone has the
    number, and the number itself otherwise; it neither raises nor
    changes the record. *)
Theorem find_phone_tells_presence (self : Record.t) (n : string) :
  phones_ok self ->
  state (Record.find_phone n self) = self
  /\ output (Record.find_phone n self) = []
  /\ ((exists p, In p (Record.phones self) /\ phone_value p = n) ->
      result (Record.find_phone n self) = inr n)
  /\ (result (Record.find_phone n self) = inr "Phone number not found."
      <-> forall p, In p (Record.phones self) -> phone_value p <> n).
Proof.
  intros OK. unfold Record.find_phone, bind, get, ret, state, output, result.
  destruct (Record.first_with_value n (Record.phones self)) as [p|] eqn:F;
    cbn [fst snd app].
  - destruct (first_with_value_some _ _ _ F) as [Hin E].
    split; [reflexivity|]. split; [reflexivity|]. split.
    + intros _. now rewrite E.
    + split.
      * intros [= S]. exfalso. specialize (OK p Hin). rewrite S in OK.
        exact (sentinel_is_no_phone p OK).
      * intros Habs. exfalso. exact (Habs p Hin E).
  - pose proof (first_with_value_none_inv _ _ F) as Habs.
    split; [reflexivity|]. split; [reflexivity|]. split.
    + intros (p & Hin & E). exfalso. exact (Habs p Hin E).
    + split; [intros _; exact Habs|reflexivity].
Qed.

Lemma find_phone_witness :
  let self := Record.mk "Alice" [mkPhone "1111111111"; mkPhone "2222222222"]
                        None in
  result (Record.find_phone "2222222222" self) = inr "2222222222"
  /\ result (Record.find_phone "3333333333" self)
     = inr "Phone number not found.".
Proof.
  intros self.
  assert (OK : phones_ok self).
  { intros p [<-|[<-|[]]]; reflexivity. }
  destruct (find_phone_tells_presence self "2222222222" OK)
    as (_ & _ & P & _).
  destruct (find_phone_tells_presence self "3333333333" OK)
    as (_ & _ & _ & A).
  split.
  - apply P. exists (mkPhone "2222222222"). split; [right; left|]; reflexivity.
  - apply A. intros p [<-|[<-|[]]]; discriminate.
Defined.

(** ** The [dict] of the book, read and written *)

Lemma dict_get_set_same (key : string) (v : ref) (d : list (string * ref)) :
  Dict.get key (Dict.set key v d) = Some v.
Proof.
  induction d as [|[k0 v0] d IH]; cbn [Dict.set Dict.get].
  - now rewrite String.eqb_refl.
  - destruct (String.eqb_spec k0 key) as [->|NE]; cbn [Dict.get].
    + now rewrite String.eqb_refl.
    + destruct (String.eqb_spec k0 key); [contradiction|exact IH].
Qed.

Lemma dict_get_set_other (key key' : string) (v : ref)
      (d : list (string * ref)) :
  key' <> key -> Dict.get key' (Dict.set key v d) = Dict.get key' d.
Proof.
  intros NE. induction d as [|[k0 v0] d IH]; cbn [Dict.set Dict.get].
  - destruct (String.eqb_spec key key'); [congruence|reflexivity].
  - destruct (String.eqb_spec k0 key) as [->|NE0]; cbn [Dict.get].
    + destruct (String.eqb_spec key key'); [congruence|reflexivity].
    + destruct (String.eqb_spec k0 key'); [reflexivity|exact IH].
Qed.

Lemma dict_get_In (key : string) (v : ref) (d : list (string * ref)) :
  Dict.get key d = Some v -> In (key, v) d.
Proof.
  induction d as [|[k0 v0] d IH]; [discriminate|]. cbn [Dict.get].
  destruct (String.eqb_spec k0 key) as [->|_].
  - intros [= ->]. left. reflexivity.
  - intros H. right. now apply IH.
Qed.

Lemma dict_get_none_keys (key : string) (d : list (string * ref)) :
  ~ In key (map fst d) -> Dict.get key d = None.
Proof.
  induction d as [|[k0 v0] d IH]; [reflexivity|]. cbn [Dict.get map fst].
  intros H. destruct (String.eqb_spec k0 key) as [->|_].
  - exfalso. apply H. left. reflexivity.
  - apply IH. intros Hin. apply H. right. exact Hin.
Qed.

Lemma dict_get_del_same (key : string) (d : list (string * ref)) :
  NoDup (map fst d) -> Dict.get key (Dict.del key d) = None.
Proof.
  induction d as [|[k0 v0] d IH]; [reflexivity|]. cbn [Dict.del map fst].
  intros H. inversion H as [|? ? Hnot Hrest]; subst.
  destruct (String.eqb_spec k0 key) as [->|NE].
  - now apply dict_get_none_keys.
  - cbn [Dict.get]. destruct (String.eqb_spec k0 key); [contradiction|].
    now apply IH.
Qed.

Lemma dict_get_del_other (key key' : string) (d : list (string * ref)) :
  key' <> key -> Dict.get key' (Dict.del key d) = Dict.get key' d.
Proof.
  intros NE. induction d as [|[k0 v0] d IH]; [reflexivity|].
  cbn [Dict.del Dict.get].
  destruct (String.eqb_spec k0 key) as [->|NE0].
  - destruct (String.eqb_spec key key'); [congruence|reflexivity].
  - cbn [Dict.get]. destruct (String.eqb_spec k0 key'); [reflexivity|exact IH].
Qed.

Lemma dict_set_absent (key : string) (v : ref) (d : list (string * ref)) :
  Dict.get key d = None -> Dict.set key v d = (d ++ [(key, v)])%list.
Proof.
  induction d as [|[k0 v0] d IH]; [reflexivity|]. cbn [Dict.get Dict.set app].
  destruct (String.eqb k0 key); [discriminate|]. intros H. now rewrite IH.
Qed.

Lemma dict_set_present (key : string) (v : ref) (d : list (string * ref)) :
  Dict.get key d <> None -> map fst (Dict.set key v d) = map fst d.
Proof.
  induction d as [|[k0 v0] d IH]; [cbn; congruence|]. cbn [Dict.get Dict.set].
  destruct (String.eqb_spec k0 key) as [->|NE]; [reflexivity|].
  intros H. cbn [map fst]. now rewrite IH.
Qed.

(** X5: [find] after [add_record] returns the record that was added,
    under its own name; the other names are found as before; a name that
    was absent takes the last place in the book, and a name that was
    present keeps its place. *)
Theorem find_after_add_record (w : World) (r : ref) :
  let name := Record.name (heap w r) in
  let w' := state (AddressBook.add_record r w) in
  result (AddressBook.find name w') = inr (Some r)
  /\ (forall other, other <> name ->
        result (AddressBook.find other w') = result (AddressBook.find other w))
  /\ (Dict.get name (data w) = None ->
      data w' = (data w ++ [(name, r)])%list)
  /\ (Dict.get name (data w) <> None ->
      map fst (data w') = map fst (data w))
  /\ heap w' = heap w
  /\ result (AddressBook.add_record r w) = inr tt
  /\ output (AddressBook.add_record r w) = [].
Proof.
  cbn. repeat split.
  - now rewrite dict_get_set_same.
  - intros other NE. now rewrite dict_get_set_other.
  - apply dict_set_absent.
  - apply dict_set_present.
Qed.

Lemma dict_del_length (key : string) (v : ref) (d : list (string * ref)) :
  Dict.get key d = Some v ->
  (List.length (Dict.del key d) + 1 = List.length d)%nat.
Proof.
  induction d as [|[k0 v0] d IH]; [discriminate|]. cbn [Dict.get Dict.del].
  destruct (String.eqb k0 key); cbn [List.length]; [lia|].
  intros H. specialize (IH H). lia.
Qed.

(** X6: in a book that the operations have built, deleting a contact
    that is present makes its name absent, leaves every other name with
    the record it had and takes one entry off the book; for a name that
    is absent the method [delete] prints its diagnostic, the handler
    [delete_contact] answers "Contact not found.", and the book is left
    as it is. *)
Theorem delete_removes_the_contact (w : World) (name : string) :
  reachable w ->
  (Dict.get name (data w) = None ->
   AddressBook.delete name w = (inr tt, w, ["Contact not found."])
   /\ delete_contact [name] w = (inr (VStr "Contact not found."), w, []))
  /\ (forall r, Dict.get name (data w) = Some r ->
        let w' := state (delete_contact [name] w) in
        result (delete_contact [name] w)
        = inr (VStr ("Contact " ++ name ++ " has been deleted.")%string)
        /\ output (delete_contact [name] w) = []
        /\ w' = state (AddressBook.delete name w)
        /\ Dict.get name (data w') = None
        /\ (forall other, other <> name ->
              Dict.get other (data w') = Dict.get other (data w))
        /\ heap w' = heap w
        /\ (List.length (data w') + 1 = List.length (data w))%nat).
Proof.
  intros R. destruct (reachable_inv w R) as (ND & _ & _).
  unfold delete_contact, input_error, try_except, bind, lift,
    AddressBook.find, AddressBook.delete, get, put, ret, print, state,
    result, output.
  cbn. split.
  - intros G. repeat progress (rewrite ?G; cbn). auto.
  - intros r G. repeat progress (rewrite ?G; cbn). repeat split.
    + now apply dict_get_del_same.
    + intros other NE. now apply dict_get_del_other.
    + eapply dict_del_length; eauto.
Qed.

Lemma delete_removes_the_contact_witness :
  let w := exec (OpAddContact ["Bob"; "0987654321"])
          (exec (OpAddContact ["Alice"; "1234567890"]) empty_world) in
  let w' := state (delete_contact ["Alice"] w) in
  map fst (data w) = ["Alice"; "Bob"]
  /\ Dict.get "Alice" (data w') = None
  /\ Dict.get "Bob" (data w') = Dict.get "Bob" (data w).
Proof.
  intros w w'. split; [reflexivity|].
  assert (R : reachable w).
  { unfold w. repeat (apply reach_step; [|cbn; intros r; discriminate]).
    apply reach_empty. }
  destruct (delete_removes_the_contact w "Alice" R) as [_ H].
  destruct (H 0%nat eq_refl) as (_ & _ & _ & G & O & _).
  split; [exact G|]. apply O. discriminate.
Defined.

(** ** [add_contact] *)

Lemma heap_set_same (r : ref) (v : Record.t) (h : ref -> Record.t) :
  heap_set r v h r = v.
Proof. unfold heap_set. now rewrite Nat.eqb_refl. Qed.

Lemma heap_set_other (r r' : ref) (v : Record.t) (h : ref -> Record.t) :
  r' <> r -> heap_set r v h r' = h r'.
Proof.
  intros NE. unfold heap_set.
  destruct (Nat.eqb_spec r' r); [contradiction|reflexivity].
Qed.

(** X7: with a number that [Phone] accepts, [add_contact] on a name that
    is absent creates the contact at the end of the book with that one
    phone; on a name that is present it appends the number to the phones
    of the contact, duplicates included, and adds no entry.  The other
    records are untouched, and [show_phone] then lists the phones with
    the number last. *)
Theorem add_contact_adds_or_updates (w : World) (name phone : string) :
  ten_ascii_digits phone = true ->
  let w' := state (add_contact [name; phone] w) in
  (Dict.get name (data w) = None ->
   result (add_contact [name; phone] w)
   = inr (VStr ("Contact " ++ name ++ " has been added.")%string)
   /\ data w' = (data w ++ [(name, next w)])%list
   /\ heap w' (next w) = Record.mk name [mkPhone phone] None
   /\ (forall r, r <> next w -> heap w' r = heap w r)
   /\ result (show_phone [name] w') = inr (VStr phone))
  /\ (forall r, Dict.get name (data w) = Some r ->
        result (add_contact [name; phone] w)
        = inr (VStr ("Contact " ++ name ++ " has been updated.")%string)
        /\ data w' = data w
        /\ heap w' r
           = Record.mk (Record.name (heap w r))
                       (Record.phones (heap w r) ++ [mkPhone phone])
                       (Record.birthday (heap w r))
        /\ (forall r', r' <> r -> heap w' r' = heap w r')
        /\ result (show_phone [name] w')
           = inr (VStr (join "; " (map phone_value
                                       (Record.phones (heap w r)
                                        ++ [mkPhone phone])))))
  /\ output (add_contact [name; phone] w) = [].
Proof.
  intros V. pose proof (Phone_ten_digits _ V) as P.
  assert (T : truthy phone = true).
  { destruct phone; [discriminate V|reflexivity]. }
  unfold add_contact, show_phone, input_error, try_except, bind, lift,
    AddressBook.find, AddressBook.add_record, alloc, on_record,
    Record.add_phone, get, put, ret, state, result, output.
  cbn. split; [|split].
  - intros G.
    repeat progress (rewrite ?G, ?T, ?P, ?heap_set_same; cbn).
    rewrite (dict_set_absent _ _ _ G).
    assert (G' : Dict.get name (data w ++ [(name, next w)]) = Some (next w)).
    { rewrite <- (dict_set_absent _ (next w) _ G). apply dict_get_set_same. }
    repeat progress (rewrite ?G', ?heap_set_same; cbn).
    repeat split. intros r NE. now rewrite !heap_set_other.
  - intros r G.
    repeat progress (rewrite ?G, ?T, ?P, ?heap_set_same; cbn).
    repeat split. intros r' NE. now rewrite heap_set_other.
  - destruct (Dict.get name (data w));
      repeat progress (rewrite ?T, ?P; cbn); reflexivity.
Qed.

Lemma add_contact_adds_or_updates_witness :
  let w := state (add_contact ["Alice"; "1234567890"] empty_world) in
  let w' := state (add_contact ["Alice"; "1234567890"] w) in
  data w = [("Alice", 0%nat)]
  /\ data w' = [("Alice", 0%nat)]
  /\ result (show_phone ["Alice"] w') = inr (VStr "1234567890; 1234567890").
Proof.
  intros w w'.
  destruct (add_contact_adds_or_updates empty_world "Alice" "1234567890"
              eq_refl) as ((_ & D & _) & _ & _); [reflexivity|].
  destruct (add_contact_adds_or_updates w "Alice" "1234567890" eq_refl)
    as (_ & U & _).
  destruct (U 0%nat eq_refl) as (_ & D' & _ & _ & S).
  split; [exact D|]. split; [exact D'|exact S].
Defined.

(** X8: [add_contact] enters a new name in the book before it looks at
    the number: with a number that [Phone] rejects the handler returns
    the error of [Phone], and with an empty number the message of
    success, and in both cases the contact is left in the book without
    any phone. *)
Theorem add_contact_rejected_phone_still_creates
        (w : World) (name phone : string) (e : exn) :
  Dict.get name (data w) = None ->
  Phone phone = inl e ->
  let w' := state (add_contact [name; phone] w) in
  result (add_contact [name; phone] w)
  = inr (if truthy phone then VExn phone_error
         else VStr ("Contact " ++ name ++ " has been added.")%string)
  /\ data w' = (data w ++ [(name, next w)])%list
  /\ heap w' (next w) = Record.new name
  /\ result (show_phone [name] w') = inr (VStr "").
Proof.
  intros G P. pose proof (Phone_error _ _ P) as ->.
  assert (G' : Dict.get name (data w ++ [(name, next w)]) = Some (next w)).
  { rewrite <- (dict_set_absent _ (next w) _ G). apply dict_get_set_same. }
  unfold add_contact, show_phone, input_error, try_except, bind, lift,
    AddressBook.find, AddressBook.add_record, alloc, on_record,
    Record.add_phone, get, put, ret, state, result, output.
  destruct (truthy phone) eqn:T;
    repeat progress (rewrite ?G, ?P, ?T, ?heap_set_same; cbn);
    rewrite (dict_set_absent _ _ _ G);
    repeat progress (rewrite ?G', ?P, ?T, ?heap_set_same; cbn);
    repeat split.
Qed.

Lemma add_contact_rejected_phone_witness :
  let w' := state (add_contact ["Bob"; "12345"] empty_world) in
  result (add_contact ["Bob"; "12345"] empty_world) = inr (VExn phone_error)
  /\ data w' = [("Bob", 0%nat)]
  /\ heap w' 0%nat = Record.new "Bob".
Proof.
  intros w'.
  destruct (add_contact_rejected_phone_still_creates
              empty_world "Bob" "12345" phone_error eq_refl eq_refl)
    as (R & D & H & _).
  split; [exact R|]. split; [exact D|exact H].
Defined.

(** X9: a handler that unpacks its arguments answers "Enter the
    argument for the command." whenever their number is not the one it
    expects, too many as well as too few, and leaves the book as it
    is. *)
Theorem wrong_number_of_arguments (w : World) (args : list string) :
  let answer := (inr (VStr "Enter the argument for the command."), w,
                 @nil string) in
  (List.length args <> 2%nat ->
   add_contact args w = answer /\ add_birthday args w = answer)
  /\ (List.length args <> 3%nat -> change_contact args w = answer).
Proof.
  cbv zeta. split.
  - intros L. destruct args as [|a [|b [|c args]]];
      try (split; reflexivity). cbn in L. congruence.
  - intros L. destruct args as [|a [|b [|c [|d args]]]];
      try reflexivity. cbn in L. congruence.
Qed.

Lemma wrong_number_of_arguments_witness :
  add_contact ["John"; "Smith"; "1234567890"] empty_world
  = (inr (VStr "Enter the argument for the command."), empty_world, []).
Proof.
  destruct (wrong_number_of_arguments
              empty_world ["John"; "Smith"; "1234567890"]) as [H _].
  destruct H as [H _]; [cbn; lia|exact H].
Defined.

Lemma get_upcoming_birthdays_state (current_date : Date.t) (w : World) :
  state (AddressBook.get_upcoming_birthdays current_date w) = w.
Proof.
  unfold AddressBook.get_upcoming_birthdays, try_except, bind, get, lift,
    state.
  cbn. destruct (AddressBook.users_for_congratulation _ _ _) as [e|[|x l]];
    cbn; [|reflexivity|reflexivity].
  match goal with
  | |- context [if ?b then _ else _] => destruct b
  end; reflexivity.
Qed.

Lemma show_phone_state (args : list string) (w : World) :
  state (show_phone args w) = w.
Proof.
  unfold show_phone, input_error, try_except, bind, lift, AddressBook.find,
    get, ret, state.
  destruct args as [|a args]; cbn; [reflexivity|].
  destruct (Dict.get a (data w)); reflexivity.
Qed.

Lemma show_all_state (w : World) : state (show_all w) = w.
Proof.
  unfold show_all, input_error, try_except, bind, get, ret, state. cbn.
  destruct (data w); reflexivity.
Qed.

Lemma show_birthday_state (args : list string) (w : World) :
  state (show_birthday args w) = w.
Proof.
  unfold show_birthday, input_error, try_except, bind, lift,
    AddressBook.find, get, ret, state.
  destruct args as [|a args]; cbn; [reflexivity|].
  destruct (Dict.get a (data w)) as [r|]; cbn; [|reflexivity].
  destruct (Record.birthday (heap w r)); reflexivity.
Qed.

Lemma birthdays_state (current_date : Date.t) (w : World) :
  state (birthdays current_date w) = w.
Proof.
  pose proof (get_upcoming_birthdays_state current_date w) as G.
  unfold birthdays, input_error, try_except, bind. unfold state in *.
  destruct (AddressBook.get_upcoming_birthdays current_date w)
    as [[[e|[t|]] w1] o1]; cbn in *; try exact G.
  repeat match goal with
         | |- context [if ?b then _ else _] => destruct b
         end; exact G.
Qed.

(** X10: the queries change nothing: [show_phone], [show_all],
    [show_birthday], [birthdays], [get_upcoming_birthdays], [find] and
    [find_phone] leave the book and its records as they are, whatever
    they answer. *)
Theorem queries_leave_the_book (current_date : Date.t) (w : World)
        (args : list string) (name : string) :
  state (show_phone args w) = w
  /\ state (show_all w) = w
  /\ state (show_birthday args w) = w
  /\ state (birthdays current_date w) = w
  /\ state (AddressBook.get_upcoming_birthdays current_date w) = w
  /\ state (AddressBook.find name w) = w
  /\ (forall self, state (Record.find_phone name self) = self).
Proof.
  split; [apply show_phone_state|]. split; [apply show_all_state|].
  split; [apply show_birthday_state|]. split; [apply birthdays_state|].
  split; [apply get_upcoming_birthdays_state|]. split; [reflexivity|].
  intros self. unfold Record.find_phone, bind, get, ret, state. cbn.
  destruct (Record.first_with_value _ _); reflexivity.
Qed.

(** ** No exception leaves a handler *)

Lemma safe_bind {S A B} (m : M S A) (f : A -> M S B) :
  (forall s, catchable (result (m s))) ->
  (forall a s, catchable (result (f a s))) ->
  forall s, catchable (result (bind m f s)).
Proof.
  intros Hm Hf s. unfold bind, result in *. specialize (Hm s).
  destruct (m s) as [[[e|a] s1] o1]; cbn [fst] in *; [exact Hm|].
  specialize (Hf a s1). destruct (f a s1) as [[r2 s2] o2]. exact Hf.
Qed.

Lemma safe_on_record {A} (r : ref) (m : M Record.t A) :
  (forall self, catchable (result (m self))) ->
  forall w, catchable (result (on_record r m w)).
Proof.
  intros H w. unfold on_record, result in *. specialize (H (heap w r)).
  destruct (m (heap w r)) as [[res self'] o]. exact H.
Qed.

Lemma safe_add_phone (n : string) (self : Record.t) :
  catchable (result (Record.add_phone n self)).
Proof.
  unfold Record.add_phone, bind, lift, get, put, result.
  destruct (Phone n) as [e|p] eqn:P; cbn; [|exact I].
  now rewrite (Phone_error _ _ P).
Qed.

Lemma safe_remove_phone (n : string) (self : Record.t) :
  catchable (result (Record.remove_phone n self)).
Proof.
  unfold Record.remove_phone, bind, get, put, print, result. cbn.
  destruct (Record.first_with_value _ _); exact I.
Qed.

Lemma safe_edit_phone (a b : string) (self : Record.t) :
  catchable (result (Record.edit_phone a b self)).
Proof.
  unfold Record.edit_phone. apply safe_bind.
  - apply safe_remove_phone.
  - intros _. apply safe_add_phone.
Qed.

Lemma safe_add_birthday (text : string) (self : Record.t) :
  catchable (result (Record.add_birthday text self)).
Proof.
  unfold Record.add_birthday, bind, lift, get, put, result.
  destruct (Birthday text) as [e|b] eqn:B; cbn; [|exact I].
  now rewrite (Birthday_inl _ _ B).
Qed.

(** The decorator returns a value whenever the function raises nothing
    that is not an [Exception]. *)
Lemma input_error_returns (func : M World value) :
  (forall w, catchable (result (func w))) ->
  forall w, exists v, result (input_error func w) = inr v.
Proof.
  intros H w. unfold input_error, try_except, result in *. specialize (H w).
  destruct (func w) as [[[e|v] w1] o1]; cbn [fst catchable] in *; [|eauto].
  cbn [find_handler]. rewrite H.
  destruct (Exn.issubclass (Exn.cls e) Exn.KeyError); [cbn; eauto|].
  destruct (Exn.issubclass (Exn.cls e) Exn.ValueError); cbn; eauto.
Qed.

Lemma safe_upcoming (current_date : Date.t) (user : Record.t) :
  catchable (AddressBook.upcoming current_date user).
Proof.
  unfold AddressBook.upcoming.
  destruct (Record.birthday user) as [b|]; [|exact I].
  destruct (Date.strptime _) as [e|d] eqn:E.
  { cbn. now rewrite (strptime_error _ _ E). }
  destruct (Date.replace_year _ _) as [e|a] eqn:R.
  { cbn. now rewrite (new_error _ _ _ _ R). }
  destruct (negb _); [exact I|]. destruct (_ <? _); [exact I|].
  unfold Date.add_days. destruct (_ && _); [exact I|reflexivity].
Qed.

Lemma safe_loop (current_date : Date.t) (users : list Record.t) :
  forall acc,
    catchable (AddressBook.users_for_congratulation current_date users acc).
Proof.
  induction users as [|u users IH]; intros acc; [exact I|].
  cbn [AddressBook.users_for_congratulation].
  pose proof (safe_upcoming current_date u) as U.
  destruct (AddressBook.upcoming current_date u) as [e|[x|]];
    [exact U|apply IH|apply IH].
Qed.

(** [get_upcoming_birthdays] swallows whatever its loop raises. *)
Lemma get_upcoming_birthdays_total (current_date : Date.t) (w : World) :
  exists r o,
    AddressBook.get_upcoming_birthdays current_date w = (inr r, w, o).
Proof.
  pose proof (safe_loop current_date (AddressBook.users w) []) as S.
  destruct (AddressBook.users_for_congratulation
              current_date (AddressBook.users w) []) as [e|l] eqn:L.
  - exists None, [Exn.msg e].
    apply get_upcoming_birthdays_swallows; [exact L|exact S].
  - exists (match l with
            | [] => None
            | _ => Some (join nl (map AddressBook.line l))
            end), [].
    apply get_upcoming_birthdays_returns. exact L.
Qed.

Lemma safe_unpack2 (args : list string) : catchable (unpack2 args).
Proof. destruct args as [|a [|b [|c args]]]; cbn; auto. Qed.

Lemma safe_unpack3 (args : list string) : catchable (unpack3 args).
Proof. destruct args as [|a [|b [|c [|d args]]]]; cbn; auto. Qed.

Lemma safe_index0 (args : list string) : catchable (index0 args).
Proof. destruct args; cbn; auto. Qed.

Lemma safe_lift {S A} (x : exn + A) (s : S) :
  catchable x -> catchable (result (lift x s)).
Proof. intros H. exact H. Qed.

Lemma safe_delete (name : string) (w : World) :
  catchable (result (AddressBook.delete name w)).
Proof.
  unfold AddressBook.delete, bind, get, put, print, result. cbn.
  destruct (Dict.get name (data w)); exact I.
Qed.

(** Walks through the body of a handler. *)
Ltac safe_body :=
  repeat first
    [ exact I
    | apply safe_lift;
      first [apply safe_unpack2 | apply safe_unpack3 | apply safe_index0]
    | apply safe_delete
    | apply safe_add_phone | apply safe_edit_phone | apply safe_add_birthday
    | apply safe_on_record; intros
    | apply safe_bind; [|intros]
    | match goal with
      | |- forall _, _ => intros
      | |- context [match ?x with _ => _ end] => destruct x
      | |- context [if ?x then _ else _] => destruct x
      end ].

(** X11: no exception leaves a handler, and none leaves a turn of the
    loop of [main] on a command other than [close] and [exit]: every
    handler returns a value for every list of arguments and every book,
    [get_upcoming_birthdays] returns for every book, and on every line
    whose command is not [close] nor [exit] a turn of the loop ends
    normally and the loop goes on.  (On [close] and [exit] the turn
    writes the book to its file, which is not covered.) *)
Theorem no_exception_escapes (current_date : Date.t) (w : World)
        (args : list string) (user_input : string) :
  (exists v, result (add_contact args w) = inr v)
  /\ (exists v, result (change_contact args w) = inr v)
  /\ (exists v, result (show_phone args w) = inr v)
  /\ (exists v, result (show_all w) = inr v)
  /\ (exists v, result (add_birthday args w) = inr v)
  /\ (exists v, result (show_birthday args w) = inr v)
  /\ (exists v, result (birthdays current_date w) = inr v)
  /\ (exists v, result (delete_contact args w) = inr v)
  /\ (exists r, result (AddressBook.get_upcoming_birthdays current_date w)
                = inr r)
  /\ (fst (parse_input user_input) <> "close" ->
      fst (parse_input user_input) <> "exit" ->
      result (main_step current_date user_input w) = inr true).
Proof.
  assert (Hadd : forall a w0, exists v, result (add_contact a w0) = inr v).
  { intros a w0. unfold add_contact. apply input_error_returns.
    clear. intros w. safe_body. }
  assert (Hchange : forall a w0,
             exists v, result (change_contact a w0) = inr v).
  { intros a w0. unfold change_contact. apply input_error_returns.
    clear. intros w. safe_body. }
  assert (Hphone : forall a w0, exists v, result (show_phone a w0) = inr v).
  { intros a w0. unfold show_phone. apply input_error_returns.
    clear. intros w. safe_body. }
  assert (Hall : forall w0, exists v, result (show_all w0) = inr v).
  { intros w0. unfold show_all. apply input_error_returns.
    clear. intros w. safe_body. }
  assert (Hbirthday : forall a w0,
             exists v, result (add_birthday a w0) = inr v).
  { intros a w0. unfold add_birthday. apply input_error_returns.
    clear. intros w. safe_body. }
  assert (Hshow : forall a w0,
             exists v, result (show_birthday a w0) = inr v).
  { intros a w0. unfold show_birthday. apply input_error_returns.
    clear. intros w. safe_body. }
  assert (Hbirthdays : forall w0,
             exists v, result (birthdays current_date w0) = inr v).
  { intros w0. destruct (get_upcoming_birthdays_total current_date w0)
      as (r & o & G).
    rewrite (birthdays_eq _ _ _ _ _ G). cbn. eauto. }
  assert (Hdelete : forall a w0,
             exists v, result (delete_contact a w0) = inr v).
  { intros a w0. unfold delete_contact. apply input_error_returns.
    clear. intros w. safe_body. }
  assert (Hshowing : forall (h : M World value) w0,
             (exists v, result (h w0) = inr v) ->
             result (bind h (fun v => bind (print (value_str v))
                                           (fun _ => ret true)) w0)
             = inr true).
  { intros h w0 [v Hv]. unfold bind, print, ret, result in *.
    destruct (h w0) as [[r w1] o1]. cbn in Hv. subst r. reflexivity. }
  repeat (split; [solve [auto]|]).
  split.
  { destruct (get_upcoming_birthdays_total current_date w) as (r & o & G).
    rewrite G. cbn. eauto. }
  unfold main_step. destruct (parse_input user_input) as [command a].
  cbn [fst]. intros N1 N2.
  destruct (String.eqb_spec command "close") as [E|_]; [contradiction|].
  destruct (String.eqb_spec command "exit") as [E|_]; [contradiction|].
  cbn [orb].
  repeat match goal with
         | |- context [if String.eqb ?a ?b then _ else _] =>
             destruct (String.eqb a b)
         end; try reflexivity; apply Hshowing; auto.
Qed.

(** ** [parse_input] *)

Lemma join_cons_char (c : ascii) (p : string) (ps : list string) :
  join " " (String c p :: ps) = String c (join " " (p :: ps)).
Proof. destruct ps; reflexivity. Qed.

Lemma split_space_shape (s : string) :
  exists cmd args,
    split_space s = cmd :: args
    /\ join " " (cmd :: args) = s
    /\ Forall no_space (cmd :: args).
Proof.
  induction s as [|c s (cmd & args & E & J & F)].
  - exists "", []. repeat split. constructor; [intros []|constructor].
  - cbn [split_space]. rewrite E.
    destruct (is_char " " c) eqn:C.
    + apply Ascii.eqb_eq in C. subst c.
      exists "", (cmd :: args). split; [reflexivity|]. split.
      * change (join " " ("" :: cmd :: args))
          with (String " " (join " " (cmd :: args))). now rewrite J.
      * constructor; [intros []|exact F].
    + exists (String c cmd), args. split; [reflexivity|]. split.
      * rewrite join_cons_char. now rewrite J.
      * inversion F as [|? ? Fc Fa]; subst. constructor; [|exact Fa].
        intros [H|H]; [|exact (Fc H)].
        subst c. cbn in C. discriminate.
Qed.

(** X12: [parse_input] loses nothing of the line: the command word and
    the arguments it cuts at the single spaces, joined again by single
    spaces, are the line that was typed; no part holds a space; the
    arguments are kept as typed and only the command word is stripped
    and lower-cased.  There is always a command word, if an empty
    one. *)
Theorem parse_input_round_trip (user_input : string) :
  exists cmd args,
    parse_input user_input = (lower (strip cmd), args)
    /\ join " " (cmd :: args) = user_input
    /\ Forall no_space (cmd :: args).
Proof.
  destruct (split_space_shape user_input) as (cmd & args & E & J & F).
  exists cmd, args. unfold parse_input. rewrite E. auto.
Qed.

(** ** The order and the dates of the congratulations *)

Lemma loop_filter (current_date : Date.t) (users : list Record.t) :
  forall acc l,
    (forall user, In user users -> birthday_ok user) ->
    AddressBook.users_for_congratulation current_date users acc = inr l ->
    exists entries,
      l = (acc ++ entries)%list
      /\ map fst entries = filter (qualifies current_date) users.
Proof.
  induction users as [|u users IH]; intros acc l V H.
  - cbn in H. injection H as <-. exists []. now rewrite app_nil_r.
  - cbn [AddressBook.users_for_congratulation] in H.
    assert (Vu : birthday_ok u) by (apply V; left; reflexivity).
    assert (V' : forall user, In user users -> birthday_ok user)
      by (intros; apply V; right; assumption).
    cbn [filter].
    destruct (AddressBook.upcoming current_date u) as [e|[entry|]] eqn:U;
      [discriminate| |].
    + destruct (upcoming_entry _ _ _ Vu U) as [F Q]. rewrite Q.
      destruct (IH _ _ V' H) as (entries & -> & M).
      exists (entry :: entries). rewrite <- app_assoc. split; [reflexivity|].
      cbn [map]. now rewrite F, M.
    + rewrite (upcoming_none _ _ Vu U). now apply IH.
Qed.

(** X13: when the query returns lines, they are the lines of the
    contacts that qualify, each contact once, in the order of the
    book. *)
Theorem upcoming_in_book_order (current_date : Date.t) (w : World)
        (entries : list (Record.t * congratulation)) :
  birthdays_valid w ->
  AddressBook.users_for_congratulation current_date (AddressBook.users w) []
  = inr entries ->
  map fst entries = filter (qualifies current_date) (AddressBook.users w)
  /\ result (AddressBook.get_upcoming_birthdays current_date w)
     = inr match entries with
           | [] => None
           | _ => Some (join nl (map AddressBook.line entries))
           end.
Proof.
  intros V L. split.
  - destruct (loop_filter current_date _ [] _ V L) as (es & E & M).
    cbn [app] in E. now subst es.
  - now rewrite (get_upcoming_birthdays_returns _ _ _ L).
Qed.

Lemma upcoming_in_book_order_witness :
  let today := Date.mk 2024 6 10 in
  let w := session today ["add Dave 6666666666";
                          "add-birthday Dave 09.06.1985";
                          "add Bob 0987654321";
                          "add-birthday Bob 16.06.1985";
                          "add Alice 1234567890";
                          "add-birthday Alice 10.06.1990"] in
  exists entries,
    AddressBook.users_for_congratulation today (AddressBook.users w) []
    = inr entries
    /\ map (fun entry => Record.name (fst entry)) entries = ["Bob"; "Alice"]
    /\ map fst entries = filter (qualifies today) (AddressBook.users w).
Proof.
  intros today w.
  assert (L : exists entries,
             AddressBook.users_for_congratulation
               today (AddressBook.users w) [] = inr entries
             /\ map (fun entry => Record.name (fst entry)) entries
                = ["Bob"; "Alice"]).
  { vm_compute. eexists. split; reflexivity. }
  destruct L as (entries & L & N). exists entries.
  split; [exact L|]. split; [exact N|].
  apply (upcoming_in_book_order today w entries); [|exact L].
  intros user H. vm_compute in H.
  repeat (destruct H as [<-|H]; [reflexivity|]). destruct H.
Defined.

(** X14: nobody is congratulated on a week-end or before today: the
    congratulation day of every line is a Monday to a Friday, from today
    to 8 days ahead, the anchored birthday itself or the day or two
    after it.  The line shows it as DD.MM.YYYY when it is the anchored
    birthday, and as YYYY-MM-DD when it was shifted off a week-end. *)
Theorem congratulation_on_a_working_day (current_date : Date.t) (w : World)
        (entries : list (Record.t * congratulation))
        (entry : Record.t * congratulation) :
  birthdays_valid w ->
  AddressBook.users_for_congratulation current_date (AddressBook.users w) []
  = inr entries ->
  In entry entries ->
  exists b anchored day,
    Record.birthday (fst entry) = Some b
    /\ Date.replace_year (birthday_date b) (Date.year current_date)
       = inr anchored
    /\ 0 <= Date.weekday day < 5
    /\ 0 <= Date.sub_days day current_date <= 8
    /\ 0 <= Date.sub_days day anchored <= 2
    /\ ((day = anchored
         /\ AddressBook.line entry
            = (Record.str (fst entry) ++ ", Congratulation date: "
               ++ Date.strftime day)%string)
        \/ (5 <= Date.weekday anchored
            /\ AddressBook.line entry
               = (Record.str (fst entry) ++ ", Congratulation date: "
                  ++ Date.isoformat day)%string)).
Proof.
  intros V L Hin.
  destruct (loop_entries current_date _ [] _ V L) as (es & E & S & _).
  cbn [app] in E. subst es. destruct (S _ Hin) as [Hu U].
  destruct (upcoming_entry _ _ _ (V _ Hu) U) as [_ Q].
  rewrite (upcoming_eq _ _ (V _ Hu)) in U. rewrite Q in U.
  unfold qualifies, delta_days in Q.
  destruct (Record.birthday (fst entry)) as [b|]; [|discriminate].
  destruct (Date.replace_year _ _) as [e|anchored] eqn:R; [discriminate|].
  destruct (replace_year_inv _ _ _ R) as [_ Va].
  apply andb_prop in Q. destruct Q as [Q1 Q2].
  apply Z.leb_le in Q1. apply Z.ltb_lt in Q2.
  assert (W0 : 0 <= Date.weekday anchored)
    by (unfold Date.weekday; Z.to_euclidean_division_equations; lia).
  destruct entry as [u c]. cbv [fst snd] in *. unfold AddressBook.line.
  cbv [fst snd]. unfold WEEKDAYS_LENGTH in U.
  destruct (Z.ltb_spec (Date.weekday anchored) 5) as [W|W].
  - assert (c = CongText (Date.strftime anchored)) as -> by congruence.
    exists b, anchored, anchored. unfold Date.sub_days in *.
    split; [reflexivity|]. split; [exact R|]. split; [lia|].
    split; [lia|]. split; [lia|]. left. split; reflexivity.
  - destruct (add_days_weekend anchored Va W) as (monday & A & O & M & D).
    unfold WEEK_LENGTH in *. unfold Date.add_days in A. cbv zeta in A.
    destruct (_ && _); [|discriminate].
    assert (c = CongDate monday) as -> by congruence.
    exists b, anchored, monday. unfold Date.sub_days in *.
    assert (Date.weekday anchored <= 6)
      by (unfold Date.weekday; Z.to_euclidean_division_equations; lia).
    split; [reflexivity|]. split; [exact R|]. split; [lia|].
    split; [lia|]. split; [lia|]. right. split; [exact W|reflexivity].
Qed.

Lemma congratulation_on_a_working_day_witness :
  let today := Date.mk 2024 6 10 in
  let w := session today ["add Alice 1234567890";
                          "add-birthday Alice 16.06.1990"] in
  let alice := Record.mk "Alice" [mkPhone "1234567890"]
                         (Some (mkBirthday (Date.mk 1990 6 16))) in
  exists day,
    0 <= Date.weekday day < 5
    /\ 0 <= Date.sub_days day today <= 8
    /\ (day = Date.mk 2024 6 16 \/ 5 <= Date.weekday (Date.mk 2024 6 16)).
Proof.
  intros today w alice.
  destruct (congratulation_on_a_working_day
              today w [(alice, CongDate (Date.mk 2024 6 17))]
              (alice, CongDate (Date.mk 2024 6 17)))
    as (b & anchored & day & B & R & Wd & D & _ & F).
  - intros user H. vm_compute in H.
    repeat (destruct H as [<-|H]; [reflexivity|]). destruct H.
  - vm_compute. reflexivity.
  - left. reflexivity.
  - cbn [fst Record.birthday alice] in B. injection B as <-.
    vm_compute in R. injection R as <-.
    exists day. split; [exact Wd|]. split; [exact D|].
    destruct F as [[E _]|[W _]]; [left; exact E|right; exact W].
Defined.

(** ** The handlers of [add-birthday], [show-birthday] and [change] *)

(** X15: for a contact of the book, [add_birthday] with a text that
    [Birthday] reads sets the birthday, whatever was set before, and
    [show_birthday] then returns it, printed, when its year is 1000 or
    later, as the strict DD.MM.YYYY text of its date; with a text that
    [Birthday] rejects the handler
    returns the error and every record is left as it was.  For a name
    that is absent both handlers answer that the contact is not found
    and change nothing. *)
Theorem add_birthday_then_show (w : World) (name text : string) :
  (Dict.get name (data w) = None ->
   add_birthday [name; text] w
   = (inr (VStr ("Contact " ++ name ++ " not found.")%string), w, [])
   /\ show_birthday [name] w
      = (inr (VStr ("Contact " ++ name ++ " not found.")%string), w, []))
  /\ (forall r, Dict.get name (data w) = Some r ->
        let w' := state (add_birthday [name; text] w) in
        data w' = data w
        /\ (forall b, Birthday text = inr b ->
              result (add_birthday [name; text] w)
              = inr (VStr ("Birthday has been added to " ++ name ++ ".")%string)
              /\ heap w' r
                 = Record.mk (Record.name (heap w r))
                             (Record.phones (heap w r)) (Some b)
              /\ (forall r', r' <> r -> heap w' r' = heap w r')
              /\ result (show_birthday [name] w') = inr (VBirthday b)
              /\ (1000 <= Date.year (birthday_date b) ->
                  Date.strict_date_text (value_str (VBirthday b))
                  = Some (birthday_date b)))
        /\ (forall e, Birthday text = inl e ->
              result (add_birthday [name; text] w)
              = inr (VExn birthday_error)
              /\ forall r', heap w' r' = heap w r')).
Proof.
  unfold add_birthday, show_birthday, input_error, try_except, bind, lift,
    AddressBook.find, on_record, Record.add_birthday, get, put, ret, state,
    result, output.
  cbn. split.
  - intros G. repeat progress (rewrite ?G; cbn). auto.
  - intros r G. split; [|split].
    + repeat progress (rewrite ?G; cbn).
      destruct (Birthday text) as [e|b] eqn:B.
      * rewrite (Birthday_inl _ _ B). reflexivity.
      * reflexivity.
    + intros b B.
      repeat progress (rewrite ?G, ?B, ?heap_set_same; cbn).
      split; [reflexivity|]. split; [reflexivity|]. split.
      * intros r' NE. now rewrite heap_set_other.
      * split; [reflexivity|]. intros _. apply strict_strftime.
        eapply Birthday_valid; eauto.
    + intros e B. pose proof (Birthday_inl _ _ B) as ->.
      repeat progress (rewrite ?G, ?B; cbn).
      split; [reflexivity|]. intros r'. unfold heap_set.
      destruct (Nat.eqb_spec r' r) as [->|_]; reflexivity.
Qed.

Lemma edit_phone_error (old new : string) (self : Record.t) (e : exn) :
  result (Record.edit_phone old new self) = inl e -> e = phone_error.
Proof.
  unfold Record.edit_phone, Record.remove_phone, Record.add_phone, bind, get,
    put, print, lift, result. cbn.
  destruct (Record.first_with_value old (Record.phones self)); cbn;
    destruct (Phone new) as [e'|p'] eqn:P; cbn; try discriminate;
    intros [= <-]; exact (Phone_error _ _ P).
Qed.

(** X16: for a contact of the book, [change_contact] does to its record
    what [edit_phone] does and touches nothing else; it answers that the
    contact was updated when [edit_phone] returns, and returns the error
    of [Phone] when [edit_phone] raises, the old number then being
    already removed.  For a name that is absent it answers that the
    contact is not found and changes nothing. *)
Theorem change_contact_follows_edit_phone
        (w : World) (name old new : string) :
  (Dict.get name (data w) = None ->
   change_contact [name; old; new] w
   = (inr (VStr ("Contact " ++ name ++ " not found.")%string), w, []))
  /\ (forall r, Dict.get name (data w) = Some r ->
        let w' := state (change_contact [name; old; new] w) in
        let edited := Record.edit_phone old new (heap w r) in
        data w' = data w
        /\ heap w' r = state edited
        /\ (forall r', r' <> r -> heap w' r' = heap w r')
        /\ (result edited = inr tt ->
            result (change_contact [name; old; new] w)
            = inr (VStr ("Contact " ++ name ++ " has been updated.")%string))
        /\ (forall e, result edited = inl e ->
              result (change_contact [name; old; new] w)
              = inr (VExn phone_error)
              /\ Record.phones (state edited)
                 = Record.list_remove old (Record.phones (heap w r)))).
Proof.
  split.
  - intros G. unfold change_contact, input_error, try_except, bind, lift,
      AddressBook.find, get, ret.
    cbn. repeat progress (rewrite ?G; cbn). reflexivity.
  - intros r G. cbv zeta.
    assert (E : forall e, result (Record.edit_phone old new (heap w r)) = inl e
                          -> e = phone_error)
      by (intros e; apply edit_phone_error).
    assert (L : forall e, result (Record.edit_phone old new (heap w r)) = inl e
                  -> Record.phones (state (Record.edit_phone old new (heap w r)))
                     = Record.list_remove old (Record.phones (heap w r))).
    { unfold Record.edit_phone, Record.remove_phone, Record.add_phone, bind,
        get, put, print, lift, result, state. cbn.
      destruct (Record.first_with_value old (Record.phones (heap w r)))
        as [p|] eqn:F; cbn;
        destruct (Phone new) as [e'|p'] eqn:P; cbn; try discriminate;
        intros e _.
      - destruct (first_with_value_some _ _ _ F) as [_ ->]. reflexivity.
      - pose proof (first_with_value_none_inv _ _ F) as Habs. clear - Habs.
        induction (Record.phones (heap w r)) as [|q l IH]; [reflexivity|].
        cbn [Record.list_remove].
        destruct (String.eqb_spec (phone_value q) old) as [Eq|_].
        + exfalso. apply (Habs q); [left; reflexivity|exact Eq].
        + f_equal. apply IH. intros q' Hq'. apply Habs. right. exact Hq'. }
    unfold change_contact, input_error, try_except, bind, lift,
      AddressBook.find, on_record, get, ret, state, result in *.
    cbn. repeat progress (rewrite ?G; cbn).
    destruct (Record.edit_phone old new (heap w r)) as [[[e|[]] self'] o];
      cbn in *.
    + rewrite (E e eq_refl). cbn. rewrite heap_set_same.
      split; [reflexivity|]. split; [reflexivity|]. split.
      * intros r' NE. now rewrite heap_set_other.
      * split; [discriminate|]. intros e' _. split; [reflexivity|].
        exact (L e eq_refl).
    + rewrite heap_set_same.
      split; [reflexivity|]. split; [reflexivity|]. split.
      * intros r' NE. now rewrite heap_set_other.
      * split; [reflexivity|]. intros e' [=].
Qed.

(** ** What the store holds *)

Lemma list_remove_In (n : string) (l : list Phone_t) (p : Phone_t) :
  In p (Record.list_remove n l) -> In p l.
Proof.
  induction l as [|q l IH]; cbn [Record.list_remove]; [auto|].
  destruct (String.eqb (phone_value q) n); [right; assumption|].
  intros [H|H]; [left; exact H|right; now apply IH].
Qed.

Lemma add_phone_phones_ok (n : string) (self : Record.t) :
  phones_ok self -> phones_ok (state (Record.add_phone n self)).
Proof.
  intros OK. unfold Record.add_phone, bind, lift, get, put, state.
  destruct (Phone n) as [e|p] eqn:P; cbn; [exact OK|].
  intros q Hq. cbn in Hq. apply in_app_or in Hq.
  destruct Hq as [Hq|[<-|[]]]; [now apply OK|].
  pose proof (Phone_value _ _ P) as ->. exact P.
Qed.

Lemma remove_phone_phones_ok (n : string) (self : Record.t) :
  phones_ok self -> phones_ok (state (Record.remove_phone n self)).
Proof.
  intros OK. unfold Record.remove_phone, bind, get, put, print, state. cbn.
  destruct (Record.first_with_value n (Record.phones self)); cbn; [|exact OK].
  intros q Hq. cbn in Hq. apply list_remove_In in Hq. now apply OK.
Qed.

Lemma edit_phone_phones_ok (a b : string) (self : Record.t) :
  phones_ok self -> phones_ok (state (Record.edit_phone a b self)).
Proof.
  intros OK. unfold Record.edit_phone, bind, state.
  pose proof (remove_phone_phones_ok a self OK) as OK1. unfold state in OK1.
  destruct (Record.remove_phone a self) as [[[e|[]] s1] o1];
    cbn [fst snd] in *; [exact OK1|].
  pose proof (add_phone_phones_ok b s1 OK1) as OK2. unfold state in OK2.
  destruct (Record.add_phone b s1) as [[r2 s2] o2]. exact OK2.
Qed.

Lemma add_birthday_phones_ok (text : string) (self : Record.t) :
  phones_ok self -> phones_ok (state (Record.add_birthday text self)).
Proof.
  intros OK. unfold Record.add_birthday, bind, lift, get, put, state.
  destruct (Birthday text); cbn; exact OK.
Qed.

Lemma hoare_seq_any {A B} (I : World -> Prop) (m : M World A)
      (f : A -> M World B) :
  hoare I m (fun _ w => I w) ->
  (forall a, hoare I (f a) (fun _ w => I w)) ->
  hoare I (bind m f) (fun _ w => I w).
Proof.
  intros Hm Hf. eapply hoare_bind; [exact Hm|auto|exact Hf].
Qed.

Lemma store_on_record {A} (r : ref) (m : M Record.t A) :
  (forall self, phones_ok self -> phones_ok (state (m self))) ->
  hoare store_ok (on_record r m) (fun _ w => store_ok w).
Proof.
  intros K w OK. unfold on_record, state.
  pose proof (K (heap w r) (OK r)) as K'. unfold state in K'.
  destruct (m (heap w r)) as [[res self'] o]. cbn [fst snd] in *.
  intros r'. cbn [heap]. unfold heap_set.
  destruct (Nat.eqb_spec r' r); [exact K'|apply OK].
Qed.

Lemma store_alloc (name : string) :
  hoare store_ok (alloc name) (fun _ w => store_ok w).
Proof.
  intros w OK r. cbn. unfold heap_set.
  destruct (Nat.eqb_spec r (next w)); [intros p []|apply OK].
Qed.

Lemma store_add_record (r : ref) :
  hoare store_ok (AddressBook.add_record r) (fun _ w => store_ok w).
Proof. intros w OK. exact OK. Qed.

Lemma store_delete (name : string) :
  hoare store_ok (AddressBook.delete name) (fun _ w => store_ok w).
Proof.
  intros w OK. unfold AddressBook.delete, bind, get, put, print, state. cbn.
  destruct (Dict.get name (data w)); exact OK.
Qed.

Lemma store_unchanged {A} (m : M World A) :
  (forall w, state (m w) = w) ->
  hoare store_ok m (fun _ w => store_ok w).
Proof. intros H w OK. now rewrite H. Qed.

(** Walks through the body of a handler. *)
Ltac store_body :=
  repeat first
    [ apply store_delete | apply store_alloc | apply store_add_record
    | apply store_on_record;
      first [ apply add_phone_phones_ok | apply edit_phone_phones_ok
            | apply add_birthday_phones_ok ]
    | apply store_unchanged; reflexivity
    | apply hoare_seq_any; [|intros]
    | match goal with
      | |- context [match ?x with _ => _ end] => destruct x
      | |- context [if ?x then _ else _] => destruct x
      end ].

Lemma exec_store_ok (o : op) (w : World) : store_ok w -> store_ok (exec o w).
Proof.
  intros OK. destruct o; cbn [exec].
  - exact (store_alloc name w OK).
  - exact (store_on_record r _ (add_phone_phones_ok phone_number) w OK).
  - exact (store_on_record r _ (remove_phone_phones_ok phone_number) w OK).
  - exact (store_on_record r _ (edit_phone_phones_ok _ _) w OK).
  - exact (store_on_record r _ (add_birthday_phones_ok birthday) w OK).
  - exact OK.
  - exact (store_delete record_name w OK).
  - revert w OK. unfold add_contact.
    apply (hoare_input_error store_ok store_ok). store_body.
  - revert w OK. unfold change_contact.
    apply (hoare_input_error store_ok store_ok). store_body.
  - revert w OK. unfold add_birthday.
    apply (hoare_input_error store_ok store_ok). store_body.
  - revert w OK. unfold delete_contact.
    apply (hoare_input_error store_ok store_ok). store_body.
Qed.

Lemma reachable_store_ok (w : World) : reachable w -> store_ok w.
Proof.
  induction 1 as [|w o _ IH _]; [intros r p []|now apply exec_store_ok].
Qed.

Lemma ten_ascii_digits_length (t : string) :
  ten_ascii_digits t = true -> String.length t = 10%nat.
Proof.
  unfold ten_ascii_digits. rewrite andb_true_iff, Nat.eqb_eq. tauto.
Qed.

Lemma length_app_nl (t : string) :
  String.length (t ++ nl) = S (String.length t).
Proof. induction t as [|c t IH]; cbn; [reflexivity|now rewrite IH]. Qed.

(** X17: in every book that the operations have built, every phone of
    every contact is a text that [Phone] accepts, of 10 characters or of
    11 with a final newline, and every birthday is a real calendar date,
    which [Birthday] builds again from its own rendering when its year
    is 1000 or later. *)
Theorem stored_fields_are_validated (w : World) :
  reachable w ->
  forall key r,
    In (key, r) (data w) ->
    (forall p, In p (Record.phones (heap w r)) ->
       Phone (phone_value p) = inr p
       /\ (10 <= String.length (phone_value p) <= 11)%nat)
    /\ (forall b, Record.birthday (heap w r) = Some b ->
          Date.valid (birthday_date b) = true
          /\ (1000 <= Date.year (birthday_date b) ->
              Birthday (Birthday_str b) = inr b)).
Proof.
  intros R key r Hin. split.
  - intros p Hp. pose proof (reachable_store_ok w R r p Hp) as OK.
    split; [exact OK|].
    destruct (Phone_inv _ _ OK) as (t & T & [E|E]); rewrite E.
    + rewrite (ten_ascii_digits_length t T). lia.
    + rewrite length_app_nl, (ten_ascii_digits_length t T). lia.
  - intros b B. destruct (reachable_inv w R) as (_ & _ & Bok).
    specialize (Bok r). unfold birthday_ok in Bok. rewrite B in Bok.
    split; [exact Bok|]. intros _.
    apply Birthday_inr. now apply strptime_strftime.
Qed.

Lemma stored_fields_are_validated_witness :
  let w := exec (OpAddBirthday ["Alice"; "1.2.2024"])
          (exec (OpAddContact ["Alice"; "1234567890"]) empty_world) in
  Phone "1234567890" = inr (mkPhone "1234567890")
  /\ Date.valid (Date.mk 2024 2 1) = true.
Proof.
  intros w.
  assert (R : reachable w).
  { unfold w. repeat (apply reach_step; [|cbn; intros r; discriminate]).
    apply reach_empty. }
  destruct (stored_fields_are_validated w R "Alice" 0%nat) as [H B].
  - left. reflexivity.
  - split.
    + exact (proj1 (H (mkPhone "1234567890") (or_introl eq_refl))).
    + exact (proj1 (B (mkBirthday (Date.mk 2024 2 1)) eq_refl)).
Defined.

(** ** [show_all] and the commands that read *)

Lemma join_starts_with_C (u : Record.t) (us : list Record.t) :
  exists rest, join nl (map Record.str (u :: us)) = String "C" rest.
Proof.
  cbn [map]. destruct (map Record.str us) as [|p ps];
    cbn; eexists; reflexivity.
Qed.

(** X18: [show_all] answers "No contacts available." exactly when the
    book is empty; for a book with contacts it answers their renderings,
    one per contact in the order of the book, joined by newlines, a text
    that starts with "Contact name: " and so is never taken for that
    message. *)
Theorem show_all_tells_emptiness (w : World) :
  (result (show_all w) = inr (VStr "No contacts available.")
   <-> data w = [])
  /\ (data w <> [] ->
      result (show_all w)
      = inr (VStr (join nl (map Record.str (AddressBook.users w)))))
  /\ output (show_all w) = [].
Proof.
  unfold show_all, input_error, try_except, bind, get, ret, result, output,
    AddressBook.users.
  cbn. destruct (data w) as [|[k r] d] eqn:D; cbn [fst snd app].
  - split; [tauto|]. split; [congruence|reflexivity].
  - destruct (join_starts_with_C (heap w r) (map (fun kv => heap w (snd kv)) d))
      as [rest E].
    cbn [map snd] in *. rewrite E.
    split; [split; discriminate|]. split; reflexivity.
Qed.

(** What a turn of the loop does to the book is what the handler it
    calls does. *)
Lemma showing_state (h : M World value) (w : World) :
  state (bind h (fun v => bind (print (value_str v)) (fun _ => ret true)) w)
  = state (h w).
Proof.
  unfold bind, print, ret, state. destruct (h w) as [[[e|v] w1] o1];
    reflexivity.
Qed.

(** X19: a turn of the loop of [main] changes the book only on the
    commands [add], [change], [add-birthday] and [delete]: on every
    other line, a query, [hello], [help], [close], [exit] or a word that
    is no command, the book is left as it is. *)
Theorem only_four_commands_change_the_book
        (current_date : Date.t) (w : World) (user_input : string) :
  ~ In (fst (parse_input user_input))
       ["add"; "change"; "add-birthday"; "delete"] ->
  state (main_step current_date user_input w) = w.
Proof.
  unfold main_step. destruct (parse_input user_input) as [command a].
  cbn [fst In]. intros H.
  repeat match goal with
         | |- context [String.eqb command ?c] =>
             destruct (String.eqb_spec command c) as [->|?]
         end; cbn [orb];
    try rewrite showing_state;
    first [ reflexivity
          | apply show_phone_state | apply show_birthday_state
          | apply birthdays_state | apply show_all_state
          | exfalso; apply H; tauto ].
Qed.

Lemma only_four_commands_change_the_book_witness :
  let today := Date.mk 2024 6 10 in
  let w := session today ["add Alice 1234567890"] in
  state (main_step today "PHONE Alice" w) = w
  /\ state (main_step today "remove Alice" w) = w.
Proof.
  intros today w. split.
  - apply (only_four_commands_change_the_book today w "PHONE Alice").
    vm_compute. intros [H|[H|[H|[H|[]]]]]; discriminate H.
  - apply (only_four_commands_change_the_book today w "remove Alice").
    vm_compute. intros [H|[H|[H|[H|[]]]]]; discriminate H.
Defined.
